(** * Audit-trail plugin ([src/models/plugins/history.plugin.ts])

    A shallow embedding of the history plugin: the per-connection registry
    of history models, [createHistoryEntry], and the hooks the plugin
    installs on every mutation pathway of a schema ([save], [softDelete],
    [restore], [deleteOne], [findOneAndDelete], [findOneAndUpdate],
    [deleteMany], [updateMany]).

    Plain JavaScript objects are finite maps from field names to values
    ([gmap string value]); the object spread [{...a, ...b}] is the
    left-biased union [b ∪ a].  Asynchronous code is sequential code in a
    state-and-exception monad over a [World] that holds everything the
    plugin can observe or change. *)

From Stdlib Require Import Ascii.
From stdpp Require Import gmap strings list fin_maps.

Open Scope string_scope.
Open Scope list_scope.

(** ** Values and documents *)

(** JavaScript values as they occur in documents and update objects. *)
#[warnings="-register-all"]
Inductive value :=
  | VUndefined
  | VNull
  | VBool (b : bool)
  | VNum (n : Z)
  | VStr (s : string)
  | VDate (t : Z)
  | VObjectId (i : N)
  | VObject (o : gmap string value).

(** A storage connection is known by its identity only. *)
Definition Connection := nat.

(** [action] of [IHistoryDocument]: the five literals of the schema enum. *)
Inductive Action := create | update | softDelete | hardDelete | restore.

(** [IHistoryDocument]: the fields handed to [new HistoryModel({...})].
    [snapshot] and [modifiedBy] are optional in the interface; a field
    whose value is [undefined] is absent. *)
Record IHistoryDocument := {
  originalId : N;
  changes : gmap string value;
  snapshot : option (gmap string value);
  modelName : string;
  action : Action;
  modifiedBy : option value
}.

(** A model compiled by [connection.model('History', historySchema)].  The
    object's identity is [model_ident]; [model_db] is the connection it was
    compiled on, whose history collection its documents are saved to. *)
Record HistoryModel := {
  model_ident : nat;
  model_db : Connection
}.

(** A hydrated mongoose document, as far as the plugin reads it: [_id],
    [isNew], the field values, [modifiedPaths()] and [constructor.db]. *)
Record Doc := {
  _id : N;
  isNew : bool;
  fields : gmap string value;
  modifiedPaths : list string;
  db : Connection
}.

(** [doc.toObject()], the full-state read of the host entity: a plain
    copy of every field.  The identifier is one of them, under the key
    ["_id"]. *)
Definition toObject (d : Doc) : gmap string value :=
  <["_id" := VObjectId (_id d)]> (fields d).

(** The segments of a dotted path: ["a.b"] is [["a"; "b"]].  [cur] is
    the segment read so far. *)
Fixpoint segments (path cur : string) : list string :=
  match path with
  | EmptyString => [cur]
  | String a rest =>
      if Ascii.eqb a "."%char then cur :: segments rest ""
      else segments rest (cur +:+ String a EmptyString)
  end.

(** The value an object holds along a list of segments. *)
Fixpoint descend (segs : list string) (o : gmap string value) : option value :=
  match segs with
  | [] => None
  | [k] => o !! k
  | k :: rest =>
      match o !! k with
      | Some (VObject inner) => descend rest inner
      | _ => None
      end
  end.

(** [doc.get(path)]: the current value at a path, [undefined] when the
    document has none there. *)
Definition get (d : Doc) (path : string) : value :=
  default VUndefined (descend (segments path "") (toObject d)).

(** A storage failure surfaced by a rejected [save()] promise. *)
Inductive Error := WriteError (msg : string).

(** ** The world *)

(** Everything the plugin reads or writes:
    - [models]: the static map of [HistoryModelSingleton];
    - [compiled]: how many history models [connection.model] has built;
    - [history]: per connection, the history collection in insertion order;
    - [collections]: per connection, the audited collection (identifier and
      fields of each stored entity, in storage order);
    - [ASYNC_STORAGE]: the ambient key-value context;
    - [faults]: the outcomes the history store will give to the coming
      writes, oldest first ([Some e] rejects the write with [e]; [None],
      or an exhausted script, accepts it). *)
Record World := {
  models : gmap Connection HistoryModel;
  compiled : nat;
  history : gmap Connection (list IHistoryDocument);
  collections : gmap Connection (list (N * gmap string value));
  ASYNC_STORAGE : gmap string value;
  faults : list (option Error)
}.

Definition set_models (f : gmap Connection HistoryModel) (n : nat) (w : World) : World :=
  {| models := f; compiled := n; history := history w;
     collections := collections w; ASYNC_STORAGE := ASYNC_STORAGE w;
     faults := faults w |}.

Definition set_history (h : gmap Connection (list IHistoryDocument)) (w : World) : World :=
  {| models := models w; compiled := compiled w; history := h;
     collections := collections w; ASYNC_STORAGE := ASYNC_STORAGE w;
     faults := faults w |}.

Definition set_collections (cs : gmap Connection (list (N * gmap string value))) (w : World) : World :=
  {| models := models w; compiled := compiled w; history := history w;
     collections := cs; ASYNC_STORAGE := ASYNC_STORAGE w;
     faults := faults w |}.

Definition set_faults (fs : list (option Error)) (w : World) : World :=
  {| models := models w; compiled := compiled w; history := history w;
     collections := collections w; ASYNC_STORAGE := ASYNC_STORAGE w;
     faults := fs |}.

(** The history entries stored on a connection. *)
Definition entries (c : Connection) (w : World) : list IHistoryDocument :=
  default [] (history w !! c).

(** The audited entities stored on a connection. *)
Definition stored (c : Connection) (w : World) : list (N * gmap string value) :=
  default [] (collections w !! c).

(** The world of a freshly loaded module: nothing registered, nothing
    stored, no ambient context, no scripted failure. *)
Definition initial : World :=
  {| models := ∅; compiled := 0; history := ∅; collections := ∅;
     ASYNC_STORAGE := ∅; faults := [] |}.

(** ** Awaited code: state and exceptions *)

Inductive Result (A : Type) :=
  | Ok (a : A)
  | Throw (e : Error).
Arguments Ok {A} a.
Arguments Throw {A} e.

Definition M (A : Type) : Type := World → Result A * World.

Definition ret {A} (a : A) : M A := λ w, (Ok a, w).

Definition bind {A B} (m : M A) (k : A → M B) : M B :=
  λ w, match m w with
       | (Ok a, w') => k a w'
       | (Throw e, w') => (Throw e, w')
       end.

#[global] Instance M_ret : MRet M := @ret.
#[global] Instance M_bind : MBind M := λ A B k m, bind m k.

(** [for (const x of xs) { await body(x) }] *)
Fixpoint for_of {A} (xs : list A) (body : A → M unit) : M unit :=
  match xs with
  | [] => mret tt
  | x :: rest => body x;; for_of rest body
  end.

(** ** The registry of history models *)

Module HistoryModelSingleton.

(** [connection.model<IHistoryDocument>('History', historySchema)]:
    compiles a new model object, bound to the connection. *)
Definition connection_model (connection : Connection) : M HistoryModel :=
  λ w, (Ok {| model_ident := compiled w; model_db := connection |},
        set_models (models w) (S (compiled w)) w).

(** [this.models.set(connection, model)] *)
Definition models_set (connection : Connection) (model : HistoryModel) : M unit :=
  λ w, (Ok tt, set_models (<[connection := model]> (models w)) (compiled w) w).

(** [static getModel(connection)].  The closing
    [this.models.get(connection)!] reads back the model the branch has
    just cached, or the one cached by an earlier call. *)
Definition getModel (connection : Connection) : M HistoryModel :=
  λ w, match models w !! connection with
       | None =>
           (model ← connection_model connection;
            models_set connection model;;
            mret model) w
       | Some model => (Ok model, w)
       end.

End HistoryModelSingleton.

(** [await new HistoryModel(entry).save()].
    Modelled from the spec: the append of the audit record writer
    (sections 4.4 and 7).  The store consumes the next scripted outcome;
    an accepted entry is appended, as handed over, to the history
    collection of the model's connection; a rejected one throws the
    store's error and stores nothing. *)
Definition HistoryModel_save (HistoryModel : HistoryModel) (entry : IHistoryDocument) : M unit :=
  λ w, match faults w with
       | Some e :: rest => (Throw e, set_faults rest w)
       | outcome =>
           let c := model_db HistoryModel in
           (Ok tt, set_faults (tail outcome)
                     (set_history (<[c := entries c w ++ [entry]]> (history w)) w))
       end.

(** [ASYNC_STORAGE.get(key)].
    Modelled from the spec: the read contract of the actor context
    provider (section 4.5): the bound value, or [undefined] (here [None])
    when the ambient context binds none; never an error. *)
Definition ASYNC_STORAGE_get (key : string) : M (option value) :=
  λ w, (Ok (ASYNC_STORAGE w !! key), w).

(** ** Queries on the audited collection *)

(** The query object a query hook runs on: [this.model] (known by the
    connection whose collection it reads), [this.getQuery()] (the filter,
    as the predicate it denotes on a stored entity's full state) and
    [this.getUpdate()]. *)
Record Query := {
  model : Connection;
  getQuery : gmap string value → bool;
  getUpdate : gmap string value
}.

(** A stored entity read back as a document: not new, nothing modified. *)
Definition hydrate (c : Connection) (s : N * gmap string value) : Doc :=
  {| _id := s.1; isNew := false; fields := s.2; modifiedPaths := []; db := c |}.

(** The full state of a stored entity, as [toObject()] gives it once
    the entity is read back. *)
Definition full_state (s : N * gmap string value) : gmap string value :=
  <["_id" := VObjectId s.1]> s.2.

Definition matches (filter : gmap string value → bool) (s : N * gmap string value) : bool :=
  filter (full_state s).

(** [await model.find(filter)].
    Modelled from the spec: the multi-match read of the storage layer
    (section 6): every match, in storage order. *)
Definition find (c : Connection) (filter : gmap string value → bool) : M (list Doc) :=
  λ w, (Ok (hydrate c <$> List.filter (matches filter) (stored c w)), w).

(** [await model.findOne(filter)].
    Modelled from the spec: the single-match read of the storage layer
    (section 6): the first match, or [null] (here [None]). *)
Definition findOne (c : Connection) (filter : gmap string value → bool) : M (option Doc) :=
  λ w, (Ok (hydrate c <$> head (List.filter (matches filter) (stored c w))), w).

(** ** The plugin *)

(** [options: { modelName: string }] *)
Record Options := { options_modelName : string }.

Section historyPlugin.

Variable options : Options.

(** The host's change tracker: the modified paths of a document after
    an assignment of a value to a path. *)
Variable markModified : Doc → string → value → list string.

(** The store's reading of an update object: the fields of a stored
    entity after the update is applied to them. *)
Variable applyUpdate : gmap string value → gmap string value → gmap string value.

Definition createHistoryEntry (doc : Doc) (action : Action)
    (changes : gmap string value) (snapshot : option (gmap string value)) : M unit :=
  currentUserId ← ASYNC_STORAGE_get "currentUserId";
  let connection := db doc in
  HistoryModel ← HistoryModelSingleton.getModel connection;
  HistoryModel_save HistoryModel
    {| originalId := _id doc;
       changes := changes;
       snapshot := snapshot;
       modelName := options_modelName options;
       action := action;
       modifiedBy := currentUserId |}.

(** [schema.pre('save', ...)] *)
Definition pre_save (this : Doc) : M unit :=
  let action := if isNew this then create else update in
  let changes :=
    if isNew this then toObject this
    else foldl (λ acc path, <[path := get this path]> acc) ∅ (modifiedPaths this) in
  let snapshot := toObject this in
  createHistoryEntry this action changes (Some snapshot).

(** [schema.pre('deleteOne', { document: true, query: false }, ...)] *)
Definition pre_deleteOne (this : Doc) : M unit :=
  let snapshot := toObject this in
  createHistoryEntry this hardDelete ∅ (Some snapshot).

(** [schema.pre('findOneAndDelete', ...)] *)
Definition pre_findOneAndDelete (this : Query) : M unit :=
  doc ← findOne (model this) (getQuery this);
  match doc with
  | Some doc =>
      let snapshot := toObject doc in
      createHistoryEntry doc hardDelete ∅ (Some snapshot)
  | None => mret tt
  end.

(** [schema.pre('findOneAndUpdate', ...)] *)
Definition pre_findOneAndUpdate (this : Query) : M unit :=
  doc ← findOne (model this) (getQuery this);
  let updates := getUpdate this in
  match doc with
  | Some doc =>
      let snapshot := updates ∪ toObject doc in
      createHistoryEntry doc update updates (Some snapshot)
  | None => mret tt
  end.

(** [schema.pre('deleteMany', ...)] *)
Definition pre_deleteMany (this : Query) : M unit :=
  docs ← find (model this) (getQuery this);
  for_of docs (λ doc,
    let snapshot := toObject doc in
    createHistoryEntry doc hardDelete ∅ (Some snapshot)).

(** [schema.pre('updateMany', ...)] *)
Definition pre_updateMany (this : Query) : M unit :=
  let updates := getUpdate this in
  docs ← find (model this) (getQuery this);
  for_of docs (λ doc,
    let snapshot := updates ∪ toObject doc in
    createHistoryEntry doc update updates (Some snapshot)).

(** *** The host's mutation pathways *)

(** [this[path] = v] on a document: the field takes the value and the
    tracker updates the modified paths. *)
Definition assign (path : string) (v : value) (this : Doc) : Doc :=
  {| _id := _id this; isNew := isNew this;
     fields := <[path := v]> (fields this);
     modifiedPaths := markModified this path v;
     db := db this |}.

Definition replace_entity (i : N) (fs : gmap string value)
    (s : N * gmap string value) : N * gmap string value :=
  if N.eqb s.1 i then (i, fs) else s.

Fixpoint remove_first {A} (p : A → bool) (l : list A) : list A :=
  match l with
  | [] => []
  | x :: rest => if p x then rest else x :: remove_first p rest
  end.

Fixpoint map_first {A} (p : A → bool) (g : A → A) (l : list A) : list A :=
  match l with
  | [] => []
  | x :: rest => if p x then g x :: rest else x :: map_first p g rest
  end.

Definition patch (updates : gmap string value)
    (s : N * gmap string value) : N * gmap string value :=
  (s.1, applyUpdate updates s.2).

Definition write_collection (c : Connection)
    (f : list (N * gmap string value) → list (N * gmap string value)) : M unit :=
  λ w, (Ok tt, set_collections (<[c := f (stored c w)]> (collections w)) w).

(** Modelled from the spec: the primary mutation of an instance save
    (section 6, "ability to persist itself").  A new document is
    inserted, a loaded one overwrites the stored entity of its
    identifier; afterwards the document is neither new nor modified. *)
Definition persist (this : Doc) : M Doc :=
  write_collection (db this)
    (λ coll, if isNew this then coll ++ [(_id this, fields this)]
             else replace_entity (_id this) (fields this) <$> coll);;
  mret {| _id := _id this; isNew := false; fields := fields this;
          modifiedPaths := []; db := db this |}.

(** Modelled from the spec: the hook point of the storage layer
    (section 6): the interception logic runs before the mutation is
    applied, and the mutation is not applied when the hook fails. *)
Definition with_pre {A} (hook : M unit) (primary : M A) : M A :=
  hook;; primary.

(** [await doc.save()]: the hook, then the write. *)
Definition save (this : Doc) : M Doc :=
  with_pre (pre_save this) (persist this).

(** [await doc.deleteOne()]: the hook, then the removal of the stored
    entity of that identifier. *)
Definition deleteOne (this : Doc) : M unit :=
  with_pre (pre_deleteOne this)
    (write_collection (db this)
       (List.filter (λ s, negb (N.eqb s.1 (_id this))))).

(** [await Model.findOneAndDelete(filter)]: the hook, then the removal
    of the first match. *)
Definition findOneAndDelete (this : Query) : M unit :=
  with_pre (pre_findOneAndDelete this)
    (write_collection (model this) (remove_first (matches (getQuery this)))).

(** [await Model.findOneAndUpdate(filter, updates)]: the hook, then
    the update of the first match. *)
Definition findOneAndUpdate (this : Query) : M unit :=
  with_pre (pre_findOneAndUpdate this)
    (write_collection (model this)
       (map_first (matches (getQuery this)) (patch (getUpdate this)))).

(** [await Model.deleteMany(filter)]: the hook, then the removal of
    every match. *)
Definition deleteMany (this : Query) : M unit :=
  with_pre (pre_deleteMany this)
    (write_collection (model this)
       (List.filter (λ s, negb (matches (getQuery this) s)))).

(** [await Model.updateMany(filter, updates)]: the hook, then the
    update of every match. *)
Definition updateMany (this : Query) : M unit :=
  with_pre (pre_updateMany this)
    (write_collection (model this)
       (fmap (λ s, if matches (getQuery this) s
                   then patch (getUpdate this) s else s))).

(** [schema.methods.softDelete]; [now] is the reading of [new Date()].
    The method mutates [this] in place and returns nothing; here it
    returns the document as it leaves it. *)
Definition methods_softDelete (now : Z) (this : Doc) : M Doc :=
  let this := assign "deletedAt" (VDate now) this in
  this ← save this;
  let snapshot := toObject this in
  createHistoryEntry this softDelete
    {[ "deletedAt" := get this "deletedAt" ]} (Some snapshot);;
  mret this.

(** [schema.methods.restore], returning the document as it leaves it. *)
Definition methods_restore (this : Doc) : M Doc :=
  let this := assign "deletedAt" VNull this in
  this ← save this;
  let snapshot := toObject this in
  createHistoryEntry this restore {[ "deletedAt" := VNull ]} (Some snapshot);;
  mret this.

End historyPlugin.

(** ** What a run of audit code does to the world *)

(** The registry is sound when every cached model was compiled on the
    connection it is cached under, by one of the [compiled] calls of
    [connection.model] made so far, and no model object is cached under
    two connections. *)
Definition registry_ok (w : World) : Prop :=
  map_Forall (λ c m, model_db m = c ∧ model_ident m < compiled w) (models w) ∧
  ∀ c1 c2 m1 m2,
    models w !! c1 = Some m1 → models w !! c2 = Some m2 →
    model_ident m1 = model_ident m2 → c1 = c2.

(** [wrote c es n w w']: between [w] and [w'] the history store was asked
    for [n] writes and the entries [es] were appended, in this order, to
    the history of connection [c]; no other history changed, and neither
    did the audited collections nor the ambient context; every model the
    registry had cached is still cached. *)
Record wrote (c : Connection) (es : list IHistoryDocument) (n : nat)
    (w w' : World) : Prop := {
  wrote_here : entries c w' = entries c w ++ es;
  wrote_elsewhere : ∀ c', c' ≠ c → entries c' w' = entries c' w;
  wrote_collections : collections w' = collections w;
  wrote_context : ASYNC_STORAGE w' = ASYNC_STORAGE w;
  wrote_faults : faults w' = drop n (faults w);
  wrote_models : ∀ c' m, models w !! c' = Some m → models w' !! c' = Some m;
  wrote_registry : registry_ok w'
}.

(** The next write of the history store is accepted. *)
Definition accepts (w : World) : Prop :=
  head (faults w) = None ∨ head (faults w) = Some None.

(** [fails_closed m e w]: run from [w], the pathway [m] throws [e] and
    leaves every audited collection and every history as it was. *)
Definition fails_closed {A} (m : M A) (e : Error) (w : World) : Prop :=
  ∃ w', m w = (Throw e, w') ∧
        collections w' = collections w ∧
        ∀ c, entries c w' = entries c w.

(** The mutation pathways the plugin hooks into. *)
Inductive Pathway :=
  | Save (d : Doc)
  | SoftDelete (now : Z) (d : Doc)
  | Restore (d : Doc)
  | DeleteOne (d : Doc)
  | FindOneAndDelete (q : Query)
  | FindOneAndUpdate (q : Query)
  | DeleteMany (q : Query)
  | UpdateMany (q : Query).

(** Running a pathway for its effect on the world. *)
Definition run (options : Options) (markModified : Doc → string → value → list string)
    (applyUpdate : gmap string value → gmap string value → gmap string value)
    (p : Pathway) : M unit :=
  match p with
  | Save d => save options d;; mret tt
  | SoftDelete now d => methods_softDelete options markModified now d;; mret tt
  | Restore d => methods_restore options markModified d;; mret tt
  | DeleteOne d => deleteOne options d
  | FindOneAndDelete q => findOneAndDelete options q
  | FindOneAndUpdate q => findOneAndUpdate options applyUpdate q
  | DeleteMany q => deleteMany options q
  | UpdateMany q => updateMany options applyUpdate q
  end.

(** [attributed w w']: every history of [w'] is the history of [w]
    followed by entries whose [modifiedBy] is what the ambient context of
    [w] binds to ["currentUserId"]: absent when nothing is bound, the
    bound value otherwise. *)
Definition attributed (w w' : World) : Prop :=
  ∀ c, ∃ new,
    entries c w' = entries c w ++ new ∧
    Forall (λ e, modifiedBy e = ASYNC_STORAGE w !! "currentUserId") new.

(** The store rejects no write of the script. *)
Definition never_rejects (w : World) : Prop :=
  Forall (λ o, o = None) (faults w).

(** [audits m]: from a world with a sound registry, [m] keeps the
    registry sound, every cached model cached and the ambient context as
    it is, only appends attributed entries, and completes when the store
    rejects no write. *)
Definition audits {A} (m : M A) : Prop :=
  ∀ w, registry_ok w →
    registry_ok (m w).2 ∧
    (∀ c m0, models w !! c = Some m0 → models (m w).2 !! c = Some m0) ∧
    ASYNC_STORAGE (m w).2 = ASYNC_STORAGE w ∧
    attributed w (m w).2 ∧
    (never_rejects w → never_rejects (m w).2 ∧ ∃ a, (m w).1 = Ok a).

(** The world after a sequence of pathway runs, each from the world the
    previous one left, whether it completed or threw. *)
Definition after (options : Options) (markModified : Doc → string → value → list string)
    (applyUpdate : gmap string value → gmap string value → gmap string value)
    (ps : list Pathway) (w : World) : World :=
  foldl (λ w p, (run options markModified applyUpdate p w).2) w ps.

(** The next [n] writes of the history store are accepted. *)
Definition writes_accepted (n : nat) (w : World) : Prop :=
  Forall (λ o, o = None) (take n (faults w)).

(** The next write of the history store is rejected with [e]. *)
Definition rejects (e : Error) (w : World) : Prop :=
  head (faults w) = Some (Some e).

(** The entry [createHistoryEntry] builds for a document in world [w]. *)
Definition audit_entry (options : Options) (w : World) (doc : Doc)
    (action : Action) (changes : gmap string value)
    (snapshot : option (gmap string value)) : IHistoryDocument :=
  {| originalId := _id doc;
     changes := changes;
     snapshot := snapshot;
     modelName := options_modelName options;
     action := action;
     modifiedBy := ASYNC_STORAGE w !! "currentUserId" |}.

(** The documents a bulk hook fetches for a query, in fetch order. *)
Definition matched (q : Query) (w : World) : list Doc :=
  hydrate (model q) <$> List.filter (matches (getQuery q)) (stored (model q) w).

(** The entry a delete hook builds for a fetched document. *)
Definition delete_entry (options : Options) (w : World) (doc : Doc) : IHistoryDocument :=
  audit_entry options w doc hardDelete ∅ (Some (toObject doc)).

(** The entry an update hook builds for a fetched document. *)
Definition update_entry (options : Options) (w : World)
    (updates : gmap string value) (doc : Doc) : IHistoryDocument :=
  audit_entry options w doc update updates (Some (updates ∪ toObject doc)).

(** The entry the save hook builds for a document. *)
Definition save_entry (options : Options) (w : World) (doc : Doc) : IHistoryDocument :=
  audit_entry options w doc
    (if isNew doc then create else update)
    (if isNew doc then toObject doc
     else foldl (λ (acc : gmap string value) path, <[path := get doc path]> acc)
            ∅ (modifiedPaths doc))
    (Some (toObject doc)).

(** The document [persist] returns. *)
Definition persisted (this : Doc) : Doc :=
  {| _id := _id this; isNew := false; fields := fields this;
     modifiedPaths := []; db := db this |}.

(** ** Sample data *)

Definition widget : Options := {| options_modelName := "Widget" |}.

(** A tracker that marks every assigned path. *)
Definition mark_assigned (d : Doc) (path : string) (v : value) : list string :=
  if bool_decide (path ∈ modifiedPaths d) then modifiedPaths d
  else modifiedPaths d ++ [path].

(** An update semantics that overwrites the named fields. *)
Definition overwrite (updates fs : gmap string value) : gmap string value :=
  updates ∪ fs.

(** A document built in memory and not saved yet. *)
Definition new_widget : Doc :=
  {| _id := 1; isNew := true; fields := {[ "name" := VStr "a" ]};
     modifiedPaths := []; db := 0 |}.

(** The same entity, loaded and renamed. *)
Definition renamed_widget : Doc :=
  {| _id := 1; isNew := false; fields := {[ "name" := VStr "b" ]};
     modifiedPaths := ["name"]; db := 0 |}.

(** A world whose collection on connection [0] stores two widgets. *)
Definition two_widgets : World :=
  {| models := ∅; compiled := 0; history := ∅;
     collections := {[ 0 := [(1%N, {[ "name" := VStr "a" ]});
                             (2%N, {[ "name" := VStr "b" ]})] ]};
     ASYNC_STORAGE := ∅; faults := [] |}.

(** The first widget of [two_widgets], read back and left unmodified. *)
Definition loaded_widget : Doc := hydrate 0 (1%N, {[ "name" := VStr "a" ]}).

(** [two_widgets] with an actor bound in the ambient context. *)
Definition acting_user : World :=
  {| models := ∅; compiled := 0; history := ∅;
     collections := collections two_widgets;
     ASYNC_STORAGE := {[ "currentUserId" := VObjectId 7 ]}; faults := [] |}.

(** A query on connection [0] that every widget matches, with an
    operator-style update. *)
Definition all_widgets : Query :=
  {| model := 0;
     getQuery := λ _, true;
     getUpdate := {[ "$set" := VObject {[ "name" := VStr "c" ]} ]} |}.

(** A query on connection [0] that no widget matches. *)
Definition no_widget : Query :=
  {| model := 0;
     getQuery := λ _, false;
     getUpdate := {[ "name" := VStr "c" ]} |}.

(** [two_widgets] with a history store that rejects the next write. *)
Definition first_write_fails : World :=
  set_faults [Some (WriteError "store unavailable")] two_widgets.

(** [two_widgets] with a history store that accepts one write and
    rejects the next. *)
Definition second_write_fails : World :=
  set_faults [None; Some (WriteError "store unavailable")] two_widgets.

(** ** Invariants of runs *)

(** [preserves P m]: a run of [m] from a world where [P] holds ends in a
    world where [P] holds, whether [m] completes or throws. *)
Definition preserves (P : World → Prop) {A} (m : M A) : Prop :=
  ∀ w, P w → P (m w).2.

(** [appends Q m]: a run of [m] leaves every history as it was, followed
    by entries that satisfy [Q], whether [m] completes or throws. *)
Definition appends (Q : IHistoryDocument → Prop) {A} (m : M A) : Prop :=
  ∀ w c, ∃ new, entries c (m w).2 = entries c w ++ new ∧ Forall Q new.


(** An entry names the plugged-in model and carries a snapshot with the
    identifier of an entity, which is the entry's [originalId] unless the
    entry is an [update]. *)
Definition identified (options : Options) (e : IHistoryDocument) : Prop :=
  modelName e = options_modelName options ∧
  ∃ s, snapshot e = Some s ∧
       is_Some (s !! "_id") ∧
       (action e ≠ update → s !! "_id" = Some (VObjectId (originalId e))).

(** What [changes] holds, by [action]. *)
Definition shaped (e : IHistoryDocument) : Prop :=
  match action e with
  | create => snapshot e = Some (changes e)
  | update => True
  | softDelete => ∃ t, changes e = {[ "deletedAt" := VDate t ]}
  | hardDelete => changes e = ∅
  | restore => changes e = {[ "deletedAt" := VNull ]}
  end.

(** The registry holds one model for each call of [connection.model]. *)
Definition one_model_each (w : World) : Prop :=
  compiled w = size (models w).

(** A world with a history store that rejects the third write. *)
Definition third_write_fails : World :=
  set_faults [None; None; Some (WriteError "disk full");
              Some (WriteError "store unavailable")] two_widgets.

(** ** Basic facts *)

Lemma registry_ok_initial : registry_ok initial.
Proof.
  split; [apply map_Forall_empty|].
  intros c1 c2 m1 m2 H. simpl in H. by rewrite lookup_empty in H.
Qed.

Lemma entries_set_faults c fs w : entries c (set_faults fs w) = entries c w.
Proof. reflexivity. Qed.

Lemma wrote_refl c w : registry_ok w → wrote c [] 0 w w.
Proof.
  intros Hok. split; auto.
  by rewrite app_nil_r.
Qed.

Lemma wrote_trans c es1 es2 n1 n2 w w1 w2 :
  wrote c es1 n1 w w1 → wrote c es2 n2 w1 w2 →
  wrote c (es1 ++ es2) (n1 + n2) w w2.
Proof.
  intros [H1 H2 H3 H4 H5 H6 _] [K1 K2 K3 K4 K5 K6 K7]. split; auto.
  - by rewrite K1, H1, app_assoc.
  - intros c' Hc. by rewrite K2, H2.
  - congruence.
  - congruence.
  - by rewrite K5, H5, drop_drop.
Qed.

Section registry.

Import HistoryModelSingleton.

(** Resolving a model stores nothing and keeps the registry sound. *)
Lemma getModel_wrote c w :
  registry_ok w →
  ∃ m w', getModel c w = (Ok m, w') ∧ model_db m = c ∧
          models w' !! c = Some m ∧ wrote c [] 0 w w'.
Proof.
  intros Hok. unfold getModel.
  destruct (models w !! c) as [m|] eqn:Hc.
  - exists m, w. split; [done|]. split; [by apply (proj1 Hok c m)|].
    split; [done|]. by apply wrote_refl.
  - destruct Hok as [Hdb Hinj].
    eexists _, _. split; [reflexivity|]. simpl.
    split; [done|]. split; [by rewrite lookup_insert_eq|].
    split; simpl; auto.
    + unfold entries. simpl. by rewrite app_nil_r.
    + intros c' m' Hm'. rewrite lookup_insert_ne; [done|]. congruence.
    + split; simpl.
      * apply map_Forall_insert_2; simpl; [split; [done|lia]|].
        intros c' m' Hm'. destruct (Hdb c' m' Hm'). split; [done|lia].
      * intros c1 c2 m1 m2 H1 H2 Hid.
        destruct (decide (c = c1)) as [<-|N1], (decide (c = c2)) as [<-|N2];
          [done| | |].
        -- rewrite lookup_insert_eq in H1. rewrite lookup_insert_ne in H2 by done.
           injection H1 as <-. simpl in Hid.
           destruct (Hdb c2 m2 H2). lia.
        -- rewrite lookup_insert_eq in H2. rewrite lookup_insert_ne in H1 by done.
           injection H2 as <-. simpl in Hid.
           destruct (Hdb c1 m1 H1). lia.
        -- rewrite lookup_insert_ne in H1 by done.
           rewrite lookup_insert_ne in H2 by done.
           by apply (Hinj c1 c2 m1 m2).
Qed.

End registry.

(** ** [createHistoryEntry] *)

Section createHistoryEntry_facts.

Variable options : Options.

Lemma append_wrote c entry w :
  registry_ok w →
  wrote c [entry] 1 w
    (set_faults (tail (faults w))
       (set_history (<[c := entries c w ++ [entry]]> (history w)) w)).
Proof.
  intros Hok. split; simpl; auto.
  - unfold entries at 1. simpl. by rewrite lookup_insert_eq.
  - intros c' Hc. unfold entries. simpl. by rewrite lookup_insert_ne.
Qed.

Lemma HistoryModel_save_accepted m entry w :
  registry_ok w → accepts w →
  ∃ w', HistoryModel_save m entry w = (Ok tt, w') ∧
        wrote (model_db m) [entry] 1 w w'.
Proof.
  intros Hok Hacc. pose proof (append_wrote (model_db m) entry w Hok) as Hw.
  unfold HistoryModel_save, accepts in *.
  destruct (faults w) as [|[e|] rest] eqn:Hf; simpl in *.
  - eexists; split; [reflexivity|]. done.
  - destruct Hacc; simplify_eq.
  - eexists; split; [reflexivity|]. done.
Qed.

Lemma HistoryModel_save_rejected m entry e w :
  registry_ok w → rejects e w →
  ∃ w', HistoryModel_save m entry w = (Throw e, w') ∧
        wrote (model_db m) [] 1 w w'.
Proof.
  intros Hok Hrej. unfold HistoryModel_save, rejects in *.
  destruct (faults w) as [|[e'|] rest] eqn:Hf; simplify_eq/=.
  eexists; split; [reflexivity|].
  split; simpl; auto.
  - by rewrite app_nil_r.
  - by rewrite Hf.
Qed.

Lemma createHistoryEntry_accepted doc a ch sn w :
  registry_ok w → accepts w →
  ∃ w', createHistoryEntry options doc a ch sn w = (Ok tt, w') ∧
        wrote (db doc) [audit_entry options w doc a ch sn] 1 w w'.
Proof.
  intros Hok Hacc.
  destruct (getModel_wrote (db doc) w Hok) as (m & w1 & Hg & Hdb & _ & Hw1).
  destruct (HistoryModel_save_accepted m (audit_entry options w doc a ch sn) w1)
    as (w2 & Hs & Hw2).
  { apply Hw1. }
  { unfold accepts. by rewrite (wrote_faults _ _ _ _ _ Hw1). }
  exists w2. split.
  - unfold createHistoryEntry, mbind, M_bind, bind, ASYNC_STORAGE_get.
    by rewrite Hg.
  - rewrite Hdb in Hw2. apply (wrote_trans _ [] _ 0 1 _ _ _ Hw1 Hw2).
Qed.

Lemma createHistoryEntry_rejected doc a ch sn e w :
  registry_ok w → rejects e w →
  ∃ w', createHistoryEntry options doc a ch sn w = (Throw e, w') ∧
        wrote (db doc) [] 1 w w'.
Proof.
  intros Hok Hrej.
  destruct (getModel_wrote (db doc) w Hok) as (m & w1 & Hg & Hdb & _ & Hw1).
  destruct (HistoryModel_save_rejected m (audit_entry options w doc a ch sn) e w1)
    as (w2 & Hs & Hw2).
  { apply Hw1. }
  { unfold rejects. by rewrite (wrote_faults _ _ _ _ _ Hw1). }
  exists w2. split.
  - unfold createHistoryEntry, mbind, M_bind, bind, ASYNC_STORAGE_get.
    by rewrite Hg.
  - rewrite Hdb in Hw2. apply (wrote_trans _ [] _ 0 1 _ _ _ Hw1 Hw2).
Qed.

End createHistoryEntry_facts.

(** ** The instance pathways *)

Lemma persist_run this w :
  persist this w =
    (Ok (persisted this),
     set_collections
       (<[db this :=
            if isNew this then stored (db this) w ++ [(_id this, fields this)]
            else replace_entity (_id this) (fields this) <$> stored (db this) w]>
          (collections w)) w).
Proof. reflexivity. Qed.

Lemma with_pre_ok {A} (hook : M unit) (primary : M A) w w1 :
  hook w = (Ok tt, w1) → with_pre hook primary w = primary w1.
Proof. intros H. unfold with_pre, mbind, M_bind, bind. by rewrite H. Qed.

Lemma with_pre_throw {A} (hook : M unit) (primary : M A) e w w1 :
  hook w = (Throw e, w1) → with_pre hook primary w = (Throw e, w1).
Proof. intros H. unfold with_pre, mbind, M_bind, bind. by rewrite H. Qed.

Lemma stored_write c f w :
  stored c (set_collections (<[c := f]> (collections w)) w) = f.
Proof. unfold stored. simpl. by rewrite lookup_insert_eq. Qed.

Lemma stored_same c w w' : collections w' = collections w → stored c w' = stored c w.
Proof. unfold stored. by intros ->. Qed.

Lemma toObject_nonempty d : toObject d ≠ ∅.
Proof. apply insert_non_empty. Qed.

Lemma foldl_paths_lookup (f : string → value) (l : list string)
    (acc : gmap string value) (p : string) :
  foldl (λ acc path, <[path := f path]> acc) acc l !! p =
    if decide (p ∈ l) then Some (f p) else acc !! p.
Proof.
  revert acc. induction l as [|q l IH]; intros acc; cbn [foldl].
  - rewrite decide_False; [done|apply not_elem_of_nil].
  - rewrite IH. destruct (decide (p ∈ l)) as [Hl|Hl].
    + rewrite decide_True; [done|by right].
    + destruct (decide (p = q)) as [->|Hq].
      * rewrite lookup_insert_eq. rewrite decide_True; [done|by left].
      * rewrite lookup_insert_ne by done.
        rewrite decide_False; [done|].
        intros [?|?]%elem_of_cons; done.
Qed.

(** C1. Saving a new document writes exactly one entry, with action
    [create], whose [changes] and [snapshot] both are the full field map
    of the document; the document is then inserted. *)
Theorem C1_create_entry options (d : Doc) (w : World) :
  isNew d = true → registry_ok w → accepts w →
  ∃ e w1 w2,
    pre_save options d w = (Ok tt, w1) ∧
    wrote (db d) [e] 1 w w1 ∧
    action e = create ∧
    changes e = toObject d ∧
    snapshot e = Some (toObject d) ∧
    originalId e = _id d ∧
    save options d w = (Ok (persisted d), w2) ∧
    entries (db d) w2 = entries (db d) w ++ [e] ∧
    stored (db d) w2 = stored (db d) w ++ [(_id d, fields d)].
Proof.
  intros Hnew Hok Hacc.
  destruct (createHistoryEntry_accepted options d create (toObject d)
              (Some (toObject d)) w Hok Hacc) as (w1 & Hrun & Hw).
  assert (Hpre : pre_save options d w = (Ok tt, w1)).
  { unfold pre_save. by rewrite Hnew. }
  eexists _, w1, _. split; [exact Hpre|]. split; [exact Hw|].
  repeat (split; [reflexivity|]).
  split; [|split].
  - unfold save. rewrite (with_pre_ok _ _ _ _ Hpre). apply persist_run.
  - apply Hw.
  - rewrite stored_write, Hnew. by rewrite (stored_same _ _ _ (wrote_collections _ _ _ _ _ Hw)).
Qed.

Lemma C1_create_entry_witness :
  ∃ e w1 w2,
    pre_save widget new_widget initial = (Ok tt, w1) ∧
    wrote (db new_widget) [e] 1 initial w1 ∧
    action e = create ∧
    changes e = toObject new_widget ∧
    snapshot e = Some (toObject new_widget) ∧
    originalId e = _id new_widget ∧
    save widget new_widget initial = (Ok (persisted new_widget), w2) ∧
    entries (db new_widget) w2 = entries (db new_widget) initial ++ [e] ∧
    stored (db new_widget) w2 =
      stored (db new_widget) initial ++ [(_id new_widget, fields new_widget)].
Proof.
  apply (C1_create_entry widget new_widget initial).
  - reflexivity.
  - apply registry_ok_initial.
  - left. reflexivity.
Defined.

(** C2. Saving a loaded document writes exactly one entry, with action
    [update]; its [changes] hold the paths the tracker reports as
    modified, each with the value the document has there, and no other
    path; its [snapshot] is the full state that is then stored. *)
Theorem C2_update_entry options (d : Doc) (w : World) :
  isNew d = false → registry_ok w → accepts w →
  ∃ e w1 w2,
    pre_save options d w = (Ok tt, w1) ∧
    wrote (db d) [e] 1 w w1 ∧
    action e = update ∧
    (∀ p, changes e !! p =
            if decide (p ∈ modifiedPaths d) then Some (get d p) else None) ∧
    snapshot e = Some (toObject d) ∧
    originalId e = _id d ∧
    save options d w = (Ok (persisted d), w2) ∧
    entries (db d) w2 = entries (db d) w ++ [e] ∧
    stored (db d) w2 = replace_entity (_id d) (fields d) <$> stored (db d) w ∧
    toObject (persisted d) = toObject d.
Proof.
  intros Hnew Hok Hacc.
  set (ch := foldl (λ (acc : gmap string value) path, <[path := get d path]> acc)
              ∅ (modifiedPaths d)).
  destruct (createHistoryEntry_accepted options d update ch
              (Some (toObject d)) w Hok Hacc) as (w1 & Hrun & Hw).
  assert (Hpre : pre_save options d w = (Ok tt, w1)).
  { unfold pre_save. by rewrite Hnew. }
  eexists _, w1, _. split; [exact Hpre|]. split; [exact Hw|].
  split; [reflexivity|]. split.
  { intros p. simpl. unfold ch. rewrite (foldl_paths_lookup (get d)).
    by rewrite lookup_empty. }
  repeat (split; [reflexivity|]).
  split; [|split; [|split]].
  - unfold save. rewrite (with_pre_ok _ _ _ _ Hpre). apply persist_run.
  - apply Hw.
  - rewrite stored_write, Hnew.
    by rewrite (stored_same _ _ _ (wrote_collections _ _ _ _ _ Hw)).
  - reflexivity.
Qed.

Lemma C2_update_entry_witness :
  ∃ e w1 w2,
    pre_save widget renamed_widget two_widgets = (Ok tt, w1) ∧
    wrote (db renamed_widget) [e] 1 two_widgets w1 ∧
    action e = update ∧
    (∀ p, changes e !! p =
            if decide (p ∈ modifiedPaths renamed_widget)
            then Some (get renamed_widget p) else None) ∧
    snapshot e = Some (toObject renamed_widget) ∧
    originalId e = _id renamed_widget ∧
    save widget renamed_widget two_widgets = (Ok (persisted renamed_widget), w2) ∧
    entries (db renamed_widget) w2 = entries (db renamed_widget) two_widgets ++ [e] ∧
    stored (db renamed_widget) w2 =
      replace_entity (_id renamed_widget) (fields renamed_widget)
        <$> stored (db renamed_widget) two_widgets ∧
    toObject (persisted renamed_widget) = toObject renamed_widget.
Proof.
  apply (C2_update_entry widget renamed_widget two_widgets).
  - reflexivity.
  - split; [apply map_Forall_empty|]. intros c1 c2 m1 m2 H. simpl in H.
    by rewrite lookup_empty in H.
  - left. reflexivity.
Defined.

Lemma head_filter_split {A} (p : A → bool) (l : list A) (s : A) :
  head (List.filter p l) = Some s →
  ∃ l1 l2, l = l1 ++ s :: l2 ∧ p s = true ∧
           Forall (λ x, p x = false) l1 ∧ remove_first p l = l1 ++ l2.
Proof.
  induction l as [|x l IH]; simpl; [done|].
  destruct (p x) eqn:Hx; simpl.
  - intros [= ->]. by exists [], l.
  - intros H. destruct (IH H) as (l1 & l2 & -> & Hs & Hl1 & Hr).
    exists (x :: l1), l2. repeat split; auto. simpl. by rewrite Hr.
Qed.

Lemma findOne_run c f w :
  findOne c f w = (Ok (hydrate c <$> head (List.filter (matches f) (stored c w))), w).
Proof. reflexivity. Qed.

Lemma find_run c f w :
  find c f w = (Ok (hydrate c <$> List.filter (matches f) (stored c w)), w).
Proof. reflexivity. Qed.

(** C3. A hard delete writes exactly one entry, with action
    [hardDelete], empty [changes] and as [snapshot] the non-empty full
    state of the entity that is then removed: on the instance pathway
    the document [deleteOne] is called on, on the criteria pathway the
    first stored entity that matches. *)
Theorem C3_hard_delete_entry options (d : Doc) (q : Query) (w : World) :
  registry_ok w → accepts w →
  (∃ e w1 w2,
     pre_deleteOne options d w = (Ok tt, w1) ∧
     wrote (db d) [e] 1 w w1 ∧
     action e = hardDelete ∧ changes e = ∅ ∧
     snapshot e = Some (toObject d) ∧ toObject d ≠ ∅ ∧
     originalId e = _id d ∧
     deleteOne options d w = (Ok tt, w2) ∧
     entries (db d) w2 = entries (db d) w ++ [e] ∧
     stored (db d) w2 =
       List.filter (λ s, negb (N.eqb s.1 (_id d))) (stored (db d) w)) ∧
  (∀ s, head (List.filter (matches (getQuery q)) (stored (model q) w)) = Some s →
     ∃ e w1 w2 before after,
       pre_findOneAndDelete options q w = (Ok tt, w1) ∧
       wrote (model q) [e] 1 w w1 ∧
       action e = hardDelete ∧ changes e = ∅ ∧
       snapshot e = Some (full_state s) ∧ full_state s ≠ ∅ ∧
       originalId e = s.1 ∧
       findOneAndDelete options q w = (Ok tt, w2) ∧
       entries (model q) w2 = entries (model q) w ++ [e] ∧
       stored (model q) w = before ++ s :: after ∧
       stored (model q) w2 = before ++ after).
Proof.
  intros Hok Hacc. split.
  - destruct (createHistoryEntry_accepted options d hardDelete ∅
                (Some (toObject d)) w Hok Hacc) as (w1 & Hrun & Hw).
    eexists _, w1, _. split; [exact Hrun|]. split; [exact Hw|].
    repeat (split; [reflexivity|]).
    split; [apply toObject_nonempty|]. split; [reflexivity|].
    split; [|split].
    + unfold deleteOne. rewrite (with_pre_ok _ _ _ _ Hrun). reflexivity.
    + apply Hw.
    + rewrite stored_write.
      by rewrite (stored_same _ _ _ (wrote_collections _ _ _ _ _ Hw)).
  - intros s Hs.
    destruct (head_filter_split _ _ _ Hs) as (l1 & l2 & Hl & _ & _ & Hrm).
    set (doc := hydrate (model q) s).
    destruct (createHistoryEntry_accepted options doc hardDelete ∅
                (Some (toObject doc)) w Hok Hacc) as (w1 & Hrun & Hw).
    assert (Hpre : pre_findOneAndDelete options q w = (Ok tt, w1)).
    { unfold pre_findOneAndDelete, mbind, M_bind, bind.
      rewrite findOne_run, Hs. exact Hrun. }
    eexists _, w1, _, l1, l2. split; [exact Hpre|]. split; [exact Hw|].
    repeat (split; [reflexivity|]).
    split; [apply insert_non_empty|]. split; [reflexivity|].
    split; [|split; [|split]].
    + unfold findOneAndDelete. rewrite (with_pre_ok _ _ _ _ Hpre). reflexivity.
    + apply Hw.
    + exact Hl.
    + rewrite stored_write.
      by rewrite (stored_same _ _ _ (wrote_collections _ _ _ _ _ Hw)).
Qed.

Lemma registry_ok_empty w : models w = ∅ → registry_ok w.
Proof.
  intros H. split; rewrite H; [apply map_Forall_empty|].
  intros c1 c2 m1 m2 H1. by rewrite lookup_empty in H1.
Qed.

Lemma C3_hard_delete_entry_witness :
  registry_ok two_widgets ∧ accepts two_widgets ∧
  (∃ e w1,
     pre_deleteOne widget renamed_widget two_widgets = (Ok tt, w1) ∧
     entries 0 w1 = [e] ∧ action e = hardDelete ∧ changes e = ∅ ∧
     snapshot e = Some (toObject renamed_widget)) ∧
  (∃ e w1,
     pre_findOneAndDelete widget all_widgets two_widgets = (Ok tt, w1) ∧
     entries 0 w1 = [e] ∧ action e = hardDelete ∧ changes e = ∅ ∧
     snapshot e = Some (full_state (1%N, {[ "name" := VStr "a" ]}))).
Proof.
  assert (H1 : registry_ok two_widgets) by (by apply registry_ok_empty).
  assert (H2 : accepts two_widgets) by (by left).
  destruct (C3_hard_delete_entry widget renamed_widget all_widgets two_widgets H1 H2)
    as [(e & w1 & _ & Hrun & Hw & Ha & Hc & Hs & _) Hq].
  destruct (Hq (1%N, {[ "name" := VStr "a" ]}) eq_refl)
    as (e' & w1' & _ & _ & _ & Hrun' & Hw' & Ha' & Hc' & Hs' & _).
  split; [exact H1|]. split; [exact H2|]. split.
  - exists e, w1. repeat split; try done. apply Hw.
  - exists e', w1'. repeat split; try done. apply Hw'.
Defined.

(** ** The bulk pathways *)

Lemma audit_entry_context options w w' doc a ch sn :
  ASYNC_STORAGE w' = ASYNC_STORAGE w →
  audit_entry options w' doc a ch sn = audit_entry options w doc a ch sn.
Proof. unfold audit_entry. by intros ->. Qed.

Lemma bind_ok {A B} (m : M A) (k : A → M B) a w w1 :
  m w = (Ok a, w1) → (m ≫= k) w = k a w1.
Proof. intros H. unfold mbind, M_bind, bind. by rewrite H. Qed.

Lemma bind_throw {A B} (m : M A) (k : A → M B) e w w1 :
  m w = (Throw e, w1) → (m ≫= k) w = (Throw e, w1).
Proof. intros H. unfold mbind, M_bind, bind. by rewrite H. Qed.

Section bulk.

Variable options : Options.
Variable c : Connection.
Variable a : Action.
Variable ch : Doc → gmap string value.
Variable sn : Doc → option (gmap string value).

Local Abbreviation body :=
  (λ doc : Doc, createHistoryEntry options doc a (ch doc) (sn doc)).

Local Abbreviation entry w :=
  (λ doc : Doc, audit_entry options w doc a (ch doc) (sn doc)).

(** When the store accepts them all, the loop writes one entry per
    document, in the order of the list. *)
Lemma for_of_accepted docs : ∀ w,
  registry_ok w → Forall (λ d, db d = c) docs →
  writes_accepted (length docs) w →
  ∃ w', for_of docs body w = (Ok tt, w') ∧
        wrote c (entry w <$> docs) (length docs) w w'.
Proof.
  induction docs as [|d docs IH]; intros w Hok Hdb Hacc.
  - exists w. split; [done|]. by apply wrote_refl.
  - apply Forall_cons in Hdb as [Hd Hdb].
    assert (Hhead : accepts w).
    { unfold writes_accepted in Hacc. unfold accepts.
      destruct (faults w) as [|o fs]; [by left|].
      simpl in Hacc. apply Forall_cons in Hacc as [-> _]. by right. }
    destruct (createHistoryEntry_accepted options d a (ch d) (sn d) w Hok Hhead)
      as (w1 & Hrun & Hw1).
    rewrite Hd in Hw1.
    destruct (IH w1) as (w2 & Hloop & Hw2).
    + apply Hw1.
    + done.
    + unfold writes_accepted in *. rewrite (wrote_faults _ _ _ _ _ Hw1).
      destruct (faults w) as [|o fs]; simpl in *.
      * rewrite take_nil. constructor.
      * by apply Forall_cons in Hacc as [_ ?].
    + exists w2. split.
      * cbn [for_of]. by rewrite (bind_ok _ _ _ _ _ Hrun).
      * assert (He : entry w1 <$> docs = entry w <$> docs).
        { apply list_fmap_ext. intros _ d' _.
          apply audit_entry_context, Hw1. }
        rewrite He in Hw2.
        apply (wrote_trans _ [_] _ 1 _ _ _ _ Hw1 Hw2).
Qed.

(** When the store accepts [k] writes and rejects the next with [e],
    the loop stops there: the first [k] documents have their entry,
    the others were never processed, and [e] is thrown. *)
Lemma for_of_rejected docs : ∀ k w e rest,
  registry_ok w → Forall (λ d, db d = c) docs →
  faults w = replicate k None ++ Some e :: rest →
  k < length docs →
  ∃ w', for_of docs body w = (Throw e, w') ∧
        wrote c (entry w <$> take k docs) (S k) w w' ∧
        faults w' = rest.
Proof.
  induction docs as [|d docs IH]; intros k w e rest Hok Hdb Hf Hk;
    [simpl in Hk; lia|].
  apply Forall_cons in Hdb as [Hd Hdb].
  destruct k as [|k]; simpl in Hf.
  - destruct (createHistoryEntry_rejected options d a (ch d) (sn d) e w Hok)
      as (w1 & Hrun & Hw1).
    { unfold rejects. by rewrite Hf. }
    rewrite Hd in Hw1. exists w1. split; [|split].
    + cbn [for_of]. by rewrite (bind_throw _ _ _ _ _ Hrun).
    + done.
    + rewrite (wrote_faults _ _ _ _ _ Hw1), Hf. done.
  - destruct (createHistoryEntry_accepted options d a (ch d) (sn d) w Hok)
      as (w1 & Hrun & Hw1).
    { unfold accepts. rewrite Hf. by right. }
    rewrite Hd in Hw1.
    destruct (IH k w1 e rest) as (w2 & Hloop & Hw2 & Hrest).
    + apply Hw1.
    + done.
    + rewrite (wrote_faults _ _ _ _ _ Hw1), Hf. done.
    + simpl in Hk. lia.
    + exists w2. split; [|split; [|done]].
      * cbn [for_of]. by rewrite (bind_ok _ _ _ _ _ Hrun).
      * assert (He : entry w1 <$> take k docs = entry w <$> take k docs).
        { apply list_fmap_ext. intros _ d' _.
          apply audit_entry_context, Hw1. }
        rewrite He in Hw2.
        apply (wrote_trans _ [_] _ 1 _ _ _ _ Hw1 Hw2).
Qed.

End bulk.

Lemma matched_db q w : Forall (λ d, db d = model q) (matched q w).
Proof. unfold matched. apply Forall_fmap, Forall_true. done. Qed.

Lemma pre_deleteMany_accepted options q w :
  registry_ok w → writes_accepted (length (matched q w)) w →
  ∃ w1, pre_deleteMany options q w = (Ok tt, w1) ∧
        wrote (model q) (delete_entry options w <$> matched q w)
          (length (matched q w)) w w1.
Proof.
  intros Hok Hacc.
  destruct (for_of_accepted options (model q) hardDelete (λ _, ∅)
              (λ d, Some (toObject d)) (matched q w) w Hok (matched_db q w) Hacc)
    as (w1 & Hrun & Hw).
  exists w1. split; [|exact Hw].
  unfold pre_deleteMany. by rewrite (bind_ok _ _ _ _ _ (find_run _ _ w)).
Qed.

Lemma pre_updateMany_accepted options q w :
  registry_ok w → writes_accepted (length (matched q w)) w →
  ∃ w1, pre_updateMany options q w = (Ok tt, w1) ∧
        wrote (model q) (update_entry options w (getUpdate q) <$> matched q w)
          (length (matched q w)) w w1.
Proof.
  intros Hok Hacc.
  destruct (for_of_accepted options (model q) update (λ _, getUpdate q)
              (λ d, Some (getUpdate q ∪ toObject d)) (matched q w) w Hok
              (matched_db q w) Hacc)
    as (w1 & Hrun & Hw).
  exists w1. split; [|exact Hw].
  unfold pre_updateMany. by rewrite (bind_ok _ _ _ _ _ (find_run _ _ w)).
Qed.

Lemma pre_deleteMany_rejected options q k e rest w :
  registry_ok w → k < length (matched q w) →
  faults w = replicate k None ++ Some e :: rest →
  ∃ w1, pre_deleteMany options q w = (Throw e, w1) ∧
        wrote (model q) (delete_entry options w <$> take k (matched q w)) (S k) w w1.
Proof.
  intros Hok Hk Hf.
  destruct (for_of_rejected options (model q) hardDelete (λ _, ∅)
              (λ d, Some (toObject d)) (matched q w) k w e rest Hok
              (matched_db q w) Hf Hk)
    as (w1 & Hrun & Hw & _).
  exists w1. split; [|exact Hw].
  unfold pre_deleteMany. by rewrite (bind_ok _ _ _ _ _ (find_run _ _ w)).
Qed.

Lemma pre_updateMany_rejected options q k e rest w :
  registry_ok w → k < length (matched q w) →
  faults w = replicate k None ++ Some e :: rest →
  ∃ w1, pre_updateMany options q w = (Throw e, w1) ∧
        wrote (model q) (update_entry options w (getUpdate q) <$> take k (matched q w))
          (S k) w w1.
Proof.
  intros Hok Hk Hf.
  destruct (for_of_rejected options (model q) update (λ _, getUpdate q)
              (λ d, Some (getUpdate q ∪ toObject d)) (matched q w) k w e rest Hok
              (matched_db q w) Hf Hk)
    as (w1 & Hrun & Hw & _).
  exists w1. split; [|exact Hw].
  unfold pre_updateMany. by rewrite (bind_ok _ _ _ _ _ (find_run _ _ w)).
Qed.

(** C4. A bulk delete or bulk update whose criteria match N entities
    writes N entries, one per match in fetch order, one write after the
    other, and then applies the bulk mutation.  When the store accepts
    the first k-1 writes and rejects write k, the hook throws the store's
    error, the entries of the first k-1 matches stay in the history, no
    further write is asked for, and the bulk mutation is not applied. *)
Theorem C4_bulk_entries options applyUpdate (q : Query) (w : World) :
  registry_ok w →
  (writes_accepted (length (matched q w)) w →
   ∃ w1 w2 w3 w4,
     pre_deleteMany options q w = (Ok tt, w1) ∧
     wrote (model q) (delete_entry options w <$> matched q w)
       (length (matched q w)) w w1 ∧
     deleteMany options q w = (Ok tt, w2) ∧
     stored (model q) w2 =
       List.filter (λ s, negb (matches (getQuery q) s)) (stored (model q) w) ∧
     pre_updateMany options q w = (Ok tt, w3) ∧
     wrote (model q) (update_entry options w (getUpdate q) <$> matched q w)
       (length (matched q w)) w w3 ∧
     updateMany options applyUpdate q w = (Ok tt, w4) ∧
     stored (model q) w4 =
       (λ s, if matches (getQuery q) s then patch applyUpdate (getUpdate q) s else s)
         <$> stored (model q) w) ∧
  (∀ (k : nat) e rest,
     (1 ≤ k ≤ length (matched q w))%nat →
     faults w = replicate (k - 1) None ++ Some e :: rest →
     ∃ w1 w3,
       length (take (k - 1) (matched q w)) = k - 1 ∧
       deleteMany options q w = (Throw e, w1) ∧
       wrote (model q) (delete_entry options w <$> take (k - 1) (matched q w)) k w w1 ∧
       stored (model q) w1 = stored (model q) w ∧
       updateMany options applyUpdate q w = (Throw e, w3) ∧
       wrote (model q)
         (update_entry options w (getUpdate q) <$> take (k - 1) (matched q w)) k w w3 ∧
       stored (model q) w3 = stored (model q) w).
Proof.
  intros Hok. split.
  - intros Hacc.
    destruct (pre_deleteMany_accepted options q w Hok Hacc) as (w1 & Hd & Hw1).
    destruct (pre_updateMany_accepted options q w Hok Hacc) as (w3 & Hu & Hw3).
    eexists w1, _, w3, _.
    split; [exact Hd|]. split; [exact Hw1|]. split.
    { unfold deleteMany. rewrite (with_pre_ok _ _ _ _ Hd). reflexivity. }
    split.
    { rewrite stored_write.
      by rewrite (stored_same _ _ _ (wrote_collections _ _ _ _ _ Hw1)). }
    split; [exact Hu|]. split; [exact Hw3|]. split.
    { unfold updateMany. rewrite (with_pre_ok _ _ _ _ Hu). reflexivity. }
    rewrite stored_write.
    by rewrite (stored_same _ _ _ (wrote_collections _ _ _ _ _ Hw3)).
  - intros k e rest Hk Hf.
    destruct (pre_deleteMany_rejected options q (k - 1) e rest w Hok) as (w1 & Hd & Hw1);
      [lia|done|].
    destruct (pre_updateMany_rejected options q (k - 1) e rest w Hok) as (w3 & Hu & Hw3);
      [lia|done|].
    replace (S (k - 1)) with k in * by lia.
    exists w1, w3.
    split; [rewrite length_take; lia|].
    split; [unfold deleteMany; by rewrite (with_pre_throw _ _ _ _ _ Hd)|].
    split; [exact Hw1|].
    split; [apply stored_same, Hw1|].
    split; [unfold updateMany; by rewrite (with_pre_throw _ _ _ _ _ Hu)|].
    split; [exact Hw3|].
    apply stored_same, Hw3.
Qed.

Lemma C4_bulk_entries_witness :
  (∃ w1 w2 w3 w4,
     pre_deleteMany widget all_widgets two_widgets = (Ok tt, w1) ∧
     wrote 0 (delete_entry widget two_widgets <$> matched all_widgets two_widgets)
       2 two_widgets w1 ∧
     deleteMany widget all_widgets two_widgets = (Ok tt, w2) ∧
     stored 0 w2 = [] ∧
     pre_updateMany widget all_widgets two_widgets = (Ok tt, w3) ∧
     wrote 0
       (update_entry widget two_widgets (getUpdate all_widgets)
          <$> matched all_widgets two_widgets) 2 two_widgets w3 ∧
     updateMany widget overwrite all_widgets two_widgets = (Ok tt, w4) ∧
     stored 0 w4 = patch overwrite (getUpdate all_widgets) <$> stored 0 two_widgets) ∧
  (∃ w1 w3,
     length (take 1 (matched all_widgets second_write_fails)) = 1 ∧
     deleteMany widget all_widgets second_write_fails =
       (Throw (WriteError "store unavailable"), w1) ∧
     wrote 0
       (delete_entry widget second_write_fails
          <$> take 1 (matched all_widgets second_write_fails)) 2 second_write_fails w1 ∧
     stored 0 w1 = stored 0 second_write_fails ∧
     updateMany widget overwrite all_widgets second_write_fails =
       (Throw (WriteError "store unavailable"), w3) ∧
     wrote 0
       (update_entry widget second_write_fails (getUpdate all_widgets)
          <$> take 1 (matched all_widgets second_write_fails)) 2 second_write_fails w3 ∧
     stored 0 w3 = stored 0 second_write_fails).
Proof.
  split.
  - apply (C4_bulk_entries widget overwrite all_widgets two_widgets).
    + by apply registry_ok_empty.
    + constructor.
  - apply (proj2 (C4_bulk_entries widget overwrite all_widgets second_write_fails
                    (registry_ok_empty second_write_fails eq_refl))
             2 (WriteError "store unavailable") []).
    + vm_compute. lia.
    + reflexivity.
Defined.

(** ** The criteria pathways for one entity *)

Lemma pre_findOneAndUpdate_accepted options q s w :
  registry_ok w → accepts w →
  head (List.filter (matches (getQuery q)) (stored (model q) w)) = Some s →
  ∃ w1, pre_findOneAndUpdate options q w = (Ok tt, w1) ∧
        wrote (model q)
          [update_entry options w (getUpdate q) (hydrate (model q) s)] 1 w w1.
Proof.
  intros Hok Hacc Hs.
  destruct (createHistoryEntry_accepted options (hydrate (model q) s) update
              (getUpdate q) (Some (getUpdate q ∪ toObject (hydrate (model q) s)))
              w Hok Hacc) as (w1 & Hrun & Hw).
  exists w1. split; [|exact Hw].
  unfold pre_findOneAndUpdate.
  rewrite (bind_ok _ _ _ _ _ (findOne_run _ _ w)), Hs. exact Hrun.
Qed.

(** C7. The entry of a criteria-based update, single or bulk, carries the
    update object as given in [changes], and in [snapshot] the fetched
    state overlaid with the update object: a field of the update object
    wins over the field of the same name in the state. *)
Theorem C7_patch_verbatim options (q : Query) (w : World) :
  registry_ok w →
  (∀ s, head (List.filter (matches (getQuery q)) (stored (model q) w)) = Some s →
        accepts w →
        ∃ e w1,
          pre_findOneAndUpdate options q w = (Ok tt, w1) ∧
          wrote (model q) [e] 1 w w1 ∧
          action e = update ∧ originalId e = s.1 ∧
          changes e = getUpdate q ∧
          snapshot e = Some (getUpdate q ∪ full_state s)) ∧
  (writes_accepted (length (matched q w)) w →
   ∃ es w1,
     pre_updateMany options q w = (Ok tt, w1) ∧
     wrote (model q) es (length (matched q w)) w w1 ∧
     Forall2 (λ e d, action e = update ∧ originalId e = _id d ∧
                     changes e = getUpdate q ∧
                     snapshot e = Some (getUpdate q ∪ toObject d))
       es (matched q w)) ∧
  (∀ (state : gmap string value) (p : string),
     (getUpdate q ∪ state) !! p =
       match getUpdate q !! p with Some v => Some v | None => state !! p end).
Proof.
  intros Hok. split; [|split].
  - intros s Hs Hacc.
    destruct (pre_findOneAndUpdate_accepted options q s w Hok Hacc Hs) as (w1 & Hrun & Hw).
    eexists _, w1. split; [exact Hrun|]. split; [exact Hw|]. done.
  - intros Hacc.
    destruct (pre_updateMany_accepted options q w Hok Hacc) as (w1 & Hrun & Hw).
    eexists _, w1. split; [exact Hrun|]. split; [exact Hw|].
    apply Forall2_fmap_l, Forall_Forall2_diag, Forall_true. done.
  - intros state p. rewrite lookup_union.
    destruct (getUpdate q !! p), (state !! p); done.
Qed.

Lemma C7_patch_verbatim_witness :
  (∃ e w1,
     pre_findOneAndUpdate widget all_widgets two_widgets = (Ok tt, w1) ∧
     wrote 0 [e] 1 two_widgets w1 ∧
     action e = update ∧ originalId e = 1%N ∧
     changes e = {[ "$set" := VObject {[ "name" := VStr "c" ]} ]} ∧
     snapshot e = Some ({[ "$set" := VObject {[ "name" := VStr "c" ]} ]}
                          ∪ full_state (1%N, {[ "name" := VStr "a" ]}))) ∧
  (∃ es w1,
     pre_updateMany widget all_widgets two_widgets = (Ok tt, w1) ∧
     wrote 0 es 2 two_widgets w1 ∧
     Forall2 (λ e d, action e = update ∧ originalId e = _id d ∧
                     changes e = getUpdate all_widgets ∧
                     snapshot e = Some (getUpdate all_widgets ∪ toObject d))
       es (matched all_widgets two_widgets)).
Proof.
  pose proof (C7_patch_verbatim widget all_widgets two_widgets
                (registry_ok_empty two_widgets eq_refl)) as (H1 & H2 & _).
  split.
  - apply (H1 (1%N, {[ "name" := VStr "a" ]})); [reflexivity|by left].
  - apply H2. constructor.
Defined.

(** C10. When the criteria of a single-entity query pathway match no
    entity, the hook writes nothing, leaves the world as it is and
    completes, so the pathway is its primary operation alone. *)
Theorem C10_no_match_no_entry options applyUpdate (q : Query) (w : World) :
  head (List.filter (matches (getQuery q)) (stored (model q) w)) = None →
  pre_findOneAndDelete options q w = (Ok tt, w) ∧
  pre_findOneAndUpdate options q w = (Ok tt, w) ∧
  findOneAndDelete options q w =
    write_collection (model q) (remove_first (matches (getQuery q))) w ∧
  findOneAndUpdate options applyUpdate q w =
    write_collection (model q)
      (map_first (matches (getQuery q)) (patch applyUpdate (getUpdate q))) w ∧
  (∀ c, entries c (findOneAndDelete options q w).2 = entries c w) ∧
  (∀ c, entries c (findOneAndUpdate options applyUpdate q w).2 = entries c w).
Proof.
  intros Hnone.
  assert (Hd : pre_findOneAndDelete options q w = (Ok tt, w)).
  { unfold pre_findOneAndDelete.
    by rewrite (bind_ok _ _ _ _ _ (findOne_run _ _ w)), Hnone. }
  assert (Hu : pre_findOneAndUpdate options q w = (Ok tt, w)).
  { unfold pre_findOneAndUpdate.
    by rewrite (bind_ok _ _ _ _ _ (findOne_run _ _ w)), Hnone. }
  assert (Hfd : findOneAndDelete options q w =
    write_collection (model q) (remove_first (matches (getQuery q))) w).
  { unfold findOneAndDelete. by rewrite (with_pre_ok _ _ _ _ Hd). }
  assert (Hfu : findOneAndUpdate options applyUpdate q w =
    write_collection (model q)
      (map_first (matches (getQuery q)) (patch applyUpdate (getUpdate q))) w).
  { unfold findOneAndUpdate. by rewrite (with_pre_ok _ _ _ _ Hu). }
  repeat split; try done.
  - intros c. by rewrite Hfd.
  - intros c. by rewrite Hfu.
Qed.

Lemma C10_no_match_no_entry_witness :
  pre_findOneAndDelete widget no_widget first_write_fails = (Ok tt, first_write_fails) ∧
  pre_findOneAndUpdate widget no_widget first_write_fails = (Ok tt, first_write_fails) ∧
  findOneAndDelete widget no_widget first_write_fails =
    write_collection 0 (remove_first (matches (getQuery no_widget))) first_write_fails ∧
  findOneAndUpdate widget overwrite no_widget first_write_fails =
    write_collection 0
      (map_first (matches (getQuery no_widget)) (patch overwrite (getUpdate no_widget)))
      first_write_fails ∧
  (∀ c, entries c (findOneAndDelete widget no_widget first_write_fails).2 =
          entries c first_write_fails) ∧
  (∀ c, entries c (findOneAndUpdate widget overwrite no_widget first_write_fails).2 =
          entries c first_write_fails).
Proof.
  apply (C10_no_match_no_entry widget overwrite no_widget first_write_fails).
  reflexivity.
Defined.

(** ** Soft delete and restore *)

Lemma pre_save_accepted options d w :
  registry_ok w → accepts w →
  ∃ w1, pre_save options d w = (Ok tt, w1) ∧
        wrote (db d) [save_entry options w d] 1 w w1.
Proof. intros Hok Hacc. by apply createHistoryEntry_accepted. Qed.

Lemma pre_save_rejected options d e w :
  registry_ok w → rejects e w →
  ∃ w1, pre_save options d w = (Throw e, w1) ∧ wrote (db d) [] 1 w w1.
Proof. intros Hok Hrej. by apply createHistoryEntry_rejected. Qed.

Lemma registry_ok_set_collections cs w :
  registry_ok w → registry_ok (set_collections cs w).
Proof. done. Qed.

Lemma get_deletedAt markModified v d :
  get (persisted (assign markModified "deletedAt" v d)) "deletedAt" = v.
Proof.
  unfold get, toObject. change (segments "deletedAt" "") with ["deletedAt"].
  simpl. rewrite lookup_insert_ne by done. by rewrite lookup_insert_eq.
Qed.

Lemma toObject_assigned markModified path v d :
  path ≠ "_id" →
  toObject (persisted (assign markModified path v d)) = <[path := v]> (toObject d).
Proof. intros Hp. unfold toObject. simpl. by apply insert_insert_ne. Qed.

Section tombstone.

Variable options : Options.
Variable a : Action.
Variable mk : Doc → gmap string value.

(** The common shape of [softDelete] and [restore] once the tombstone
    field is assigned: save, then record the explicit entry. *)
Local Abbreviation save_then_record d :=
  (this ← save options d;
   createHistoryEntry options this a (mk this) (Some (toObject this));;
   mret this).

Local Abbreviation explicit_entry w d :=
  (audit_entry options w (persisted d) a (mk (persisted d))
     (Some (toObject (persisted d)))).

Lemma save_then_record_accepted d w :
  registry_ok w → writes_accepted 2 w →
  ∃ w3, save_then_record d w = (Ok (persisted d), w3) ∧
        entries (db d) w3 =
          entries (db d) w ++ [save_entry options w d; explicit_entry w d] ∧
        (∀ c, c ≠ db d → entries c w3 = entries c w) ∧
        faults w3 = drop 2 (faults w).
Proof.
  intros Hok Hacc.
  assert (Hacc1 : accepts w).
  { unfold writes_accepted, accepts in *. destruct (faults w) as [|o fs]; [by left|].
    simpl in Hacc. apply Forall_cons in Hacc as [-> _]. by right. }
  destruct (pre_save_accepted options d w Hok Hacc1) as (w1 & Hpre & Hw1).
  set (w2 := (persist d w1).2).
  assert (Hsave : save options d w = (Ok (persisted d), w2)).
  { unfold save. rewrite (with_pre_ok _ _ _ _ Hpre). apply persist_run. }
  assert (Hf2 : faults w2 = drop 1 (faults w)) by apply Hw1.
  destruct (createHistoryEntry_accepted options (persisted d) a (mk (persisted d))
              (Some (toObject (persisted d))) w2) as (w3 & Hrun & Hw3).
  { apply registry_ok_set_collections, Hw1. }
  { unfold accepts. rewrite Hf2. unfold writes_accepted in Hacc.
    destruct (faults w) as [|o [|o' fs]]; simpl in *; [by left|by left|].
    apply Forall_cons in Hacc as [_ Hacc].
    apply Forall_cons in Hacc as [-> _]. by right. }
  change (db (persisted d)) with (db d) in Hw3.
  exists w3. split; [|split; [|split]].
  - rewrite (bind_ok _ _ _ _ _ Hsave). by rewrite (bind_ok _ _ _ _ _ Hrun).
  - rewrite (wrote_here _ _ _ _ _ Hw3). simpl.
    change (entries (db d) w2) with (entries (db d) w1).
    rewrite (wrote_here _ _ _ _ _ Hw1), <- app_assoc. simpl.
    do 3 f_equal. apply audit_entry_context.
    change (ASYNC_STORAGE w2) with (ASYNC_STORAGE w1). apply Hw1.
  - intros c Hc. rewrite (wrote_elsewhere _ _ _ _ _ Hw3) by done.
    change (entries c w2) with (entries c w1).
    by apply (wrote_elsewhere _ _ _ _ _ Hw1).
  - rewrite (wrote_faults _ _ _ _ _ Hw3), Hf2. by rewrite drop_drop.
Qed.

(** A rejected first write stops the pathway before the save. *)
Lemma save_then_record_rejected d e w :
  registry_ok w → rejects e w →
  ∃ w1, save_then_record d w = (Throw e, w1) ∧ wrote (db d) [] 1 w w1.
Proof.
  intros Hok Hrej.
  destruct (pre_save_rejected options d e w Hok Hrej) as (w1 & Hpre & Hw1).
  exists w1. split; [|done].
  apply bind_throw. unfold save. by apply with_pre_throw.
Qed.

(** A rejected second write stops the pathway after the save. *)
Lemma save_then_record_late d e rest w :
  registry_ok w → faults w = None :: Some e :: rest →
  ∃ w3, save_then_record d w = (Throw e, w3) ∧
        entries (db d) w3 = entries (db d) w ++ [save_entry options w d] ∧
        stored (db d) w3 =
          (if isNew d then stored (db d) w ++ [(_id d, fields d)]
           else replace_entity (_id d) (fields d) <$> stored (db d) w).
Proof.
  intros Hok Hf.
  destruct (pre_save_accepted options d w Hok) as (w1 & Hpre & Hw1).
  { unfold accepts. rewrite Hf. by right. }
  set (w2 := (persist d w1).2).
  assert (Hsave : save options d w = (Ok (persisted d), w2)).
  { unfold save. rewrite (with_pre_ok _ _ _ _ Hpre). apply persist_run. }
  destruct (createHistoryEntry_rejected options (persisted d) a (mk (persisted d))
              (Some (toObject (persisted d))) e w2) as (w3 & Hrun & Hw3).
  { apply registry_ok_set_collections, Hw1. }
  { unfold rejects. change (faults w2) with (faults w1).
    rewrite (wrote_faults _ _ _ _ _ Hw1), Hf. done. }
  change (db (persisted d)) with (db d) in Hw3.
  exists w3. split; [|split].
  - rewrite (bind_ok _ _ _ _ _ Hsave). by rewrite (bind_throw _ _ _ _ _ Hrun).
  - rewrite (wrote_here _ _ _ _ _ Hw3), app_nil_r.
    change (entries (db d) w2) with (entries (db d) w1). apply Hw1.
  - rewrite (stored_same _ _ _ (wrote_collections _ _ _ _ _ Hw3)).
    unfold w2. rewrite persist_run. simpl. rewrite stored_write.
    by rewrite (stored_same _ _ _ (wrote_collections _ _ _ _ _ Hw1)).
Qed.

End tombstone.

(** C5 (amended). Soft-deleting a document that is not new writes
    exactly two entries: the [update] entry of the save, then a
    [softDelete] entry whose [changes] are the tombstone field alone with
    its (non-null) date; restoring is the mirror, with a [restore] entry
    whose [changes] are the tombstone field alone with [null].  Both
    entries carry the full state of the saved document as [snapshot]. *)
Theorem C5_soft_delete_restore options markModified (now : Z) (d : Doc) (w : World) :
  isNew d = false → registry_ok w → writes_accepted 2 w →
  (∃ e1 e2 d' w',
     methods_softDelete options markModified now d w = (Ok d', w') ∧
     entries (db d) w' = entries (db d) w ++ [e1; e2] ∧
     (∀ c, c ≠ db d → entries c w' = entries c w) ∧
     action e1 = update ∧ snapshot e1 = Some (toObject d') ∧
     action e2 = softDelete ∧
     changes e2 = {[ "deletedAt" := VDate now ]} ∧ VDate now ≠ VNull ∧
     snapshot e2 = Some (toObject d') ∧
     toObject d' = <["deletedAt" := VDate now]> (toObject d)) ∧
  (∃ e1 e2 d' w',
     methods_restore options markModified d w = (Ok d', w') ∧
     entries (db d) w' = entries (db d) w ++ [e1; e2] ∧
     (∀ c, c ≠ db d → entries c w' = entries c w) ∧
     action e1 = update ∧ snapshot e1 = Some (toObject d') ∧
     action e2 = restore ∧
     changes e2 = {[ "deletedAt" := VNull ]} ∧
     snapshot e2 = Some (toObject d') ∧
     toObject d' = <["deletedAt" := VNull]> (toObject d)).
Proof.
  intros Hnew Hok Hacc. split.
  - destruct (save_then_record_accepted options softDelete
                (λ this, {[ "deletedAt" := get this "deletedAt" ]})
                (assign markModified "deletedAt" (VDate now) d) w Hok Hacc)
      as (w3 & Hrun & Hhere & Helse & _).
    eexists _, _, _, w3. split; [exact Hrun|]. split; [exact Hhere|].
    split; [exact Helse|].
    split; [unfold save_entry; simpl; by rewrite Hnew|].
    split; [reflexivity|]. split; [reflexivity|].
    split; [simpl; by rewrite get_deletedAt|].
    split; [done|]. split; [reflexivity|].
    by apply toObject_assigned.
  - destruct (save_then_record_accepted options restore
                (λ _, {[ "deletedAt" := VNull ]})
                (assign markModified "deletedAt" VNull d) w Hok Hacc)
      as (w3 & Hrun & Hhere & Helse & _).
    eexists _, _, _, w3. split; [exact Hrun|]. split; [exact Hhere|].
    split; [exact Helse|].
    split; [unfold save_entry; simpl; by rewrite Hnew|].
    split; [reflexivity|]. split; [reflexivity|].
    split; [reflexivity|]. split; [reflexivity|].
    by apply toObject_assigned.
Qed.

Lemma C5_soft_delete_restore_witness :
  (∃ e1 e2 d' w',
     methods_softDelete widget mark_assigned 1000 renamed_widget two_widgets = (Ok d', w') ∧
     entries 0 w' = entries 0 two_widgets ++ [e1; e2] ∧
     (∀ c, c ≠ 0 → entries c w' = entries c two_widgets) ∧
     action e1 = update ∧ snapshot e1 = Some (toObject d') ∧
     action e2 = softDelete ∧
     changes e2 = {[ "deletedAt" := VDate 1000 ]} ∧ VDate 1000 ≠ VNull ∧
     snapshot e2 = Some (toObject d') ∧
     toObject d' = <["deletedAt" := VDate 1000]> (toObject renamed_widget)) ∧
  (∃ e1 e2 d' w',
     methods_restore widget mark_assigned renamed_widget two_widgets = (Ok d', w') ∧
     entries 0 w' = entries 0 two_widgets ++ [e1; e2] ∧
     (∀ c, c ≠ 0 → entries c w' = entries c two_widgets) ∧
     action e1 = update ∧ snapshot e1 = Some (toObject d') ∧
     action e2 = restore ∧
     changes e2 = {[ "deletedAt" := VNull ]} ∧
     snapshot e2 = Some (toObject d') ∧
     toObject d' = <["deletedAt" := VNull]> (toObject renamed_widget)).
Proof.
  apply (C5_soft_delete_restore widget mark_assigned 1000 renamed_widget two_widgets).
  - reflexivity.
  - by apply registry_ok_empty.
  - constructor.
Defined.

(** C5 as stated fails on a document that was never saved: its soft
    delete writes a [create] entry and a [softDelete] entry, and no
    [update] entry. *)
Lemma C5_counterexample :
  ∃ d' w',
    methods_softDelete widget mark_assigned 1000 new_widget initial = (Ok d', w') ∧
    action <$> entries 0 w' = [create; softDelete] ∧
    ¬ (∃ e, e ∈ entries 0 w' ∧ action e = update).
Proof.
  eexists _, _. split; [vm_compute; reflexivity|]. split; [reflexivity|].
  intros (e & He & Ha).
  apply (list_elem_of_fmap_2 action) in He. rewrite Ha in He.
  change (update ∈ [create; softDelete]) in He.
  apply elem_of_cons in He as [|He]; [done|].
  apply elem_of_cons in He as [|He]; [done|].
  by apply not_elem_of_nil in He.
Qed.

(** ** Failure of the audit write *)

Lemma wrote_nothing_closed {A} (m : M A) c n e w w1 :
  m w = (Throw e, w1) → wrote c [] n w w1 → fails_closed m e w.
Proof.
  intros Hrun Hw. exists w1. split; [done|]. split; [apply Hw|].
  intros c'. destruct (decide (c' = c)) as [->|Hc].
  - rewrite (wrote_here _ _ _ _ _ Hw). apply app_nil_r.
  - by apply (wrote_elsewhere _ _ _ _ _ Hw).
Qed.

(** C8 (amended). On the hooked pathways (instance save, instance hard
    delete, criteria-based single delete and update with a match) a
    rejected audit write makes the pathway throw the store's error with
    the audited collections and the histories unchanged; so does a
    rejected first write of a soft delete or restore.  The explicit
    [softDelete] or [restore] entry is written after the save: when that
    write is rejected, the store's error is thrown with the document
    already persisted. *)
Theorem C8_fail_closed options markModified applyUpdate (now : Z) (d : Doc)
    (q : Query) (e : Error) (w : World) :
  registry_ok w →
  (rejects e w →
     fails_closed (save options d) e w ∧
     fails_closed (deleteOne options d) e w ∧
     (head (List.filter (matches (getQuery q)) (stored (model q) w)) ≠ None →
        fails_closed (findOneAndDelete options q) e w ∧
        fails_closed (findOneAndUpdate options applyUpdate q) e w) ∧
     fails_closed (methods_softDelete options markModified now d) e w ∧
     fails_closed (methods_restore options markModified d) e w) ∧
  (∀ rest, faults w = None :: Some e :: rest →
     (∃ w3,
        methods_softDelete options markModified now d w = (Throw e, w3) ∧
        stored (db d) w3 =
          (if isNew d
           then stored (db d) w ++ [(_id d, <["deletedAt" := VDate now]> (fields d))]
           else replace_entity (_id d) (<["deletedAt" := VDate now]> (fields d))
                  <$> stored (db d) w)) ∧
     (∃ w3,
        methods_restore options markModified d w = (Throw e, w3) ∧
        stored (db d) w3 =
          (if isNew d
           then stored (db d) w ++ [(_id d, <["deletedAt" := VNull]> (fields d))]
           else replace_entity (_id d) (<["deletedAt" := VNull]> (fields d))
                  <$> stored (db d) w))).
Proof.
  intros Hok. split.
  - intros Hrej. split; [|split; [|split; [|split]]].
    + destruct (pre_save_rejected options d e w Hok Hrej) as (w1 & Hpre & Hw1).
      apply (wrote_nothing_closed _ (db d) 1 _ _ w1); [|done].
      unfold save. by apply with_pre_throw.
    + destruct (createHistoryEntry_rejected options d hardDelete ∅
                  (Some (toObject d)) e w Hok Hrej) as (w1 & Hpre & Hw1).
      apply (wrote_nothing_closed _ (db d) 1 _ _ w1); [|done].
      unfold deleteOne. by apply with_pre_throw.
    + intros Hsome.
      destruct (head (List.filter (matches (getQuery q)) (stored (model q) w)))
        as [s|] eqn:Hs; [clear Hsome|done].
      split.
      * destruct (createHistoryEntry_rejected options (hydrate (model q) s) hardDelete ∅
                    (Some (toObject (hydrate (model q) s))) e w Hok Hrej)
          as (w1 & Hpre & Hw1).
        apply (wrote_nothing_closed _ (model q) 1 _ _ w1); [|done].
        unfold findOneAndDelete. apply with_pre_throw.
        unfold pre_findOneAndDelete.
        by rewrite (bind_ok _ _ _ _ _ (findOne_run _ _ w)), Hs.
      * destruct (createHistoryEntry_rejected options (hydrate (model q) s) update
                    (getUpdate q)
                    (Some (getUpdate q ∪ toObject (hydrate (model q) s))) e w Hok Hrej)
          as (w1 & Hpre & Hw1).
        apply (wrote_nothing_closed _ (model q) 1 _ _ w1); [|done].
        unfold findOneAndUpdate. apply with_pre_throw.
        unfold pre_findOneAndUpdate.
        by rewrite (bind_ok _ _ _ _ _ (findOne_run _ _ w)), Hs.
    + destruct (save_then_record_rejected options softDelete
                  (λ this, {[ "deletedAt" := get this "deletedAt" ]})
                  (assign markModified "deletedAt" (VDate now) d) e w Hok Hrej)
        as (w1 & Hrun & Hw1).
      by apply (wrote_nothing_closed _ (db d) 1 _ _ w1).
    + destruct (save_then_record_rejected options restore
                  (λ _, {[ "deletedAt" := VNull ]})
                  (assign markModified "deletedAt" VNull d) e w Hok Hrej)
        as (w1 & Hrun & Hw1).
      by apply (wrote_nothing_closed _ (db d) 1 _ _ w1).
  - intros rest Hf. split.
    + destruct (save_then_record_late options softDelete
                  (λ this, {[ "deletedAt" := get this "deletedAt" ]})
                  (assign markModified "deletedAt" (VDate now) d) e rest w Hok Hf)
        as (w3 & Hrun & _ & Hst).
      exists w3. split; [exact Hrun|exact Hst].
    + destruct (save_then_record_late options restore
                  (λ _, {[ "deletedAt" := VNull ]})
                  (assign markModified "deletedAt" VNull d) e rest w Hok Hf)
        as (w3 & Hrun & _ & Hst).
      exists w3. split; [exact Hrun|exact Hst].
Qed.

Lemma C8_fail_closed_witness :
  (fails_closed (save widget renamed_widget)
     (WriteError "store unavailable") first_write_fails ∧
   fails_closed (deleteOne widget renamed_widget)
     (WriteError "store unavailable") first_write_fails ∧
   fails_closed (findOneAndDelete widget all_widgets)
     (WriteError "store unavailable") first_write_fails ∧
   fails_closed (findOneAndUpdate widget overwrite all_widgets)
     (WriteError "store unavailable") first_write_fails ∧
   fails_closed (methods_softDelete widget mark_assigned 1000 renamed_widget)
     (WriteError "store unavailable") first_write_fails) ∧
  (∃ w3,
     methods_softDelete widget mark_assigned 1000 renamed_widget second_write_fails =
       (Throw (WriteError "store unavailable"), w3) ∧
     stored 0 w3 =
       replace_entity 1 (<["deletedAt" := VDate 1000]> (fields renamed_widget))
         <$> stored 0 second_write_fails).
Proof.
  split.
  - destruct (C8_fail_closed widget mark_assigned overwrite 1000 renamed_widget
                all_widgets (WriteError "store unavailable") first_write_fails
                (registry_ok_empty first_write_fails eq_refl))
      as [H _].
    destruct (H eq_refl) as (Hs & Hd & Hq & Hsd & _).
    destruct (Hq ltac:(done)) as [Hqd Hqu].
    done.
  - destruct (C8_fail_closed widget mark_assigned overwrite 1000 renamed_widget
                all_widgets (WriteError "store unavailable") second_write_fails
                (registry_ok_empty second_write_fails eq_refl))
      as [_ H].
    destruct (H [] eq_refl) as [Hs _]. exact Hs.
Defined.

(** C8 as stated fails on the soft-delete pathway: when the store
    accepts the entry of the save and rejects the [softDelete] entry, the
    error is thrown and the stored entity already carries the tombstone. *)
Lemma C8_counterexample :
  (methods_softDelete widget mark_assigned 1000 loaded_widget second_write_fails).1 =
    Throw (WriteError "store unavailable") ∧
  stored 0 second_write_fails !! 0 = Some (1%N, {[ "name" := VStr "a" ]}) ∧
  stored 0 (methods_softDelete widget mark_assigned 1000 loaded_widget
              second_write_fails).2 !! 0 =
    Some (1%N, {[ "name" := VStr "a"; "deletedAt" := VDate 1000 ]}) ∧
  ¬ fails_closed (methods_softDelete widget mark_assigned 1000 loaded_widget)
      (WriteError "store unavailable") second_write_fails.
Proof.
  assert (Hafter :
    stored 0 (methods_softDelete widget mark_assigned 1000 loaded_widget
                second_write_fails).2 !! 0 =
      Some (1%N, {[ "name" := VStr "a"; "deletedAt" := VDate 1000 ]}))
    by (vm_compute; reflexivity).
  split; [vm_compute; reflexivity|]. split; [reflexivity|]. split; [exact Hafter|].
  intros (w' & Hrun & Hcoll & _).
  rewrite Hrun in Hafter. simpl in Hafter.
  unfold stored in Hafter. rewrite Hcoll in Hafter.
  apply (f_equal (λ o, o ≫= λ s : N * gmap string value, s.2 !! "deletedAt")) in Hafter.
  vm_compute in Hafter. discriminate Hafter.
Qed.

(** ** Attribution to the acting user *)

Lemma attributed_refl w : attributed w w.
Proof. intros c. exists []. by rewrite app_nil_r. Qed.

Lemma attributed_trans w w1 w2 :
  ASYNC_STORAGE w1 = ASYNC_STORAGE w →
  attributed w w1 → attributed w1 w2 → attributed w w2.
Proof.
  intros Hctx H1 H2 c.
  destruct (H1 c) as (n1 & E1 & F1). destruct (H2 c) as (n2 & E2 & F2).
  exists (n1 ++ n2). split.
  - by rewrite E2, E1, app_assoc.
  - apply Forall_app. split; [done|]. by rewrite <- Hctx.
Qed.

Lemma wrote_attributed c es n w w' :
  Forall (λ e, modifiedBy e = ASYNC_STORAGE w !! "currentUserId") es →
  wrote c es n w w' → attributed w w'.
Proof.
  intros Hes Hw c'. destruct (decide (c' = c)) as [->|Hc].
  - exists es. split; [apply Hw|done].
  - exists []. rewrite app_nil_r. split; [by apply Hw|done].
Qed.

Lemma never_rejects_drop n w w' :
  faults w' = drop n (faults w) → never_rejects w → never_rejects w'.
Proof. unfold never_rejects. intros ->. apply Forall_drop. Qed.

Lemma audits_ret {A} (a : A) : audits (mret a).
Proof.
  intros w Hok. split; [done|]. split; [done|]. split; [done|].
  split; [apply attributed_refl|].
  intros Hn. split; [done|]. by exists a.
Qed.

Lemma audits_bind {A B} (m : M A) (k : A → M B) :
  audits m → (∀ a, audits (k a)) → audits (m ≫= k).
Proof.
  intros Hm Hk w Hok. destruct (Hm w Hok) as (Hok1 & Hm1 & Hc1 & Ha1 & Hn1).
  unfold mbind, M_bind, bind.
  destruct (m w) as [[a|e] w1] eqn:Hrun; simpl in *.
  - destruct (Hk a w1 Hok1) as (Hok2 & Hm2 & Hc2 & Ha2 & Hn2).
    split; [done|]. split; [auto|]. split; [congruence|].
    split; [by apply (attributed_trans w w1)|].
    intros Hn. destruct (Hn1 Hn) as [Hn' _]. by apply Hn2.
  - split; [done|]. split; [done|]. split; [done|]. split; [done|].
    intros Hn. destruct (Hn1 Hn) as [_ [? ?]]. done.
Qed.

Lemma audits_createHistoryEntry options doc a ch sn :
  audits (createHistoryEntry options doc a ch sn).
Proof.
  intros w Hok.
  destruct (faults w) as [|[e|] rest] eqn:Hf.
  - destruct (createHistoryEntry_accepted options doc a ch sn w Hok) as (w1 & Hrun & Hw).
    { left. by rewrite Hf. }
    rewrite Hrun. simpl. split; [apply Hw|]. split; [apply Hw|].
    split; [apply Hw|]. split.
    + refine (wrote_attributed _ _ _ _ _ _ Hw). by repeat constructor.
    + intros Hn. split; [|by exists tt].
      by apply (never_rejects_drop 1 w), Hn; apply Hw.
  - destruct (createHistoryEntry_rejected options doc a ch sn e w Hok) as (w1 & Hrun & Hw).
    { unfold rejects. by rewrite Hf. }
    rewrite Hrun. simpl. split; [apply Hw|]. split; [apply Hw|].
    split; [apply Hw|]. split.
    + refine (wrote_attributed _ _ _ _ _ _ Hw). constructor.
    + intros Hn. unfold never_rejects in Hn. rewrite Hf in Hn.
      by apply Forall_cons in Hn as [? _].
  - destruct (createHistoryEntry_accepted options doc a ch sn w Hok) as (w1 & Hrun & Hw).
    { right. by rewrite Hf. }
    rewrite Hrun. simpl. split; [apply Hw|]. split; [apply Hw|].
    split; [apply Hw|]. split.
    + refine (wrote_attributed _ _ _ _ _ _ Hw). by repeat constructor.
    + intros Hn. split; [|by exists tt].
      by apply (never_rejects_drop 1 w), Hn; apply Hw.
Qed.

Lemma audits_for_of {A} (xs : list A) (body : A → M unit) :
  (∀ x, audits (body x)) → audits (for_of xs body).
Proof.
  intros Hbody. induction xs as [|x xs IH]; cbn [for_of].
  - apply audits_ret.
  - apply audits_bind; [apply Hbody|]. intros _. apply IH.
Qed.

Lemma audits_pure {A} (m : M A) (f : World → A) (g : World → World) :
  (∀ w, m w = (Ok (f w), g w)) →
  (∀ w, models (g w) = models w ∧ compiled (g w) = compiled w ∧
        history (g w) = history w ∧ ASYNC_STORAGE (g w) = ASYNC_STORAGE w ∧
        faults (g w) = faults w) →
  audits m.
Proof.
  intros Hm Hg w Hok. rewrite Hm. simpl.
  destruct (Hg w) as (Hmod & Hcomp & Hhist & Hctx & Hf).
  split; [|split; [by rewrite Hmod|split; [done|split]]].
  - unfold registry_ok in *. by rewrite Hmod, Hcomp.
  - intros c. exists []. rewrite app_nil_r. unfold entries. by rewrite Hhist.
  - intros Hn. split; [|by eexists]. unfold never_rejects in *. by rewrite Hf.
Qed.

Lemma audits_find c f : audits (find c f).
Proof. by apply (audits_pure _ _ (λ w, w) (find_run c f)). Qed.

Lemma audits_findOne c f : audits (findOne c f).
Proof. by apply (audits_pure _ _ (λ w, w) (findOne_run c f)). Qed.

Lemma audits_write_collection c f : audits (write_collection c f).
Proof.
  by apply (audits_pure _ (λ _, tt)
              (λ w, set_collections (<[c := f (stored c w)]> (collections w)) w)).
Qed.

Lemma audits_save options d : audits (save options d).
Proof.
  unfold save, with_pre. apply audits_bind; [apply audits_createHistoryEntry|].
  intros _. unfold persist. apply audits_bind; [apply audits_write_collection|].
  intros _. apply audits_ret.
Qed.

Lemma audits_run options markModified applyUpdate p :
  audits (run options markModified applyUpdate p).
Proof.
  destruct p; simpl.
  - apply audits_bind; [apply audits_save|]. intros _. apply audits_ret.
  - apply audits_bind; [|intros _; apply audits_ret].
    unfold methods_softDelete. apply audits_bind; [apply audits_save|].
    intros this. apply audits_bind; [apply audits_createHistoryEntry|].
    intros _. apply audits_ret.
  - apply audits_bind; [|intros _; apply audits_ret].
    unfold methods_restore. apply audits_bind; [apply audits_save|].
    intros this. apply audits_bind; [apply audits_createHistoryEntry|].
    intros _. apply audits_ret.
  - unfold deleteOne, with_pre.
    apply audits_bind; [apply audits_createHistoryEntry|].
    intros _. apply audits_write_collection.
  - unfold findOneAndDelete, with_pre. apply audits_bind.
    + unfold pre_findOneAndDelete. apply audits_bind; [apply audits_findOne|].
      intros [doc|]; [apply audits_createHistoryEntry|apply audits_ret].
    + intros _. apply audits_write_collection.
  - unfold findOneAndUpdate, with_pre. apply audits_bind.
    + unfold pre_findOneAndUpdate. apply audits_bind; [apply audits_findOne|].
      intros [doc|]; [apply audits_createHistoryEntry|apply audits_ret].
    + intros _. apply audits_write_collection.
  - unfold deleteMany, with_pre. apply audits_bind.
    + unfold pre_deleteMany. apply audits_bind; [apply audits_find|].
      intros docs. apply audits_for_of. intros doc. apply audits_createHistoryEntry.
    + intros _. apply audits_write_collection.
  - unfold updateMany, with_pre. apply audits_bind.
    + unfold pre_updateMany. apply audits_bind; [apply audits_find|].
      intros docs. apply audits_for_of. intros doc. apply audits_createHistoryEntry.
    + intros _. apply audits_write_collection.
Qed.

(** C9. Every entry a pathway appends has as [modifiedBy] what the
    ambient context binds to ["currentUserId"]: it is absent when nothing
    is bound and equals the bound value otherwise; the lookup itself never
    fails a pathway, which completes whenever the store rejects no
    write. *)
Theorem C9_actor_attribution options markModified applyUpdate
    (p : Pathway) (w : World) :
  registry_ok w →
  (∀ c, ∃ new,
     entries c (run options markModified applyUpdate p w).2 = entries c w ++ new ∧
     (ASYNC_STORAGE w !! "currentUserId" = None →
        Forall (λ e, modifiedBy e = None) new) ∧
     (∀ U, ASYNC_STORAGE w !! "currentUserId" = Some U →
        Forall (λ e, modifiedBy e = Some U) new)) ∧
  (never_rejects w → (run options markModified applyUpdate p w).1 = Ok tt).
Proof.
  intros Hok.
  destruct (audits_run options markModified applyUpdate p w Hok)
    as (_ & _ & _ & Hattr & Hdone).
  split.
  - intros c. destruct (Hattr c) as (new & Hnew & Hby).
    exists new. split; [done|]. split.
    + intros Hnone. by rewrite Hnone in Hby.
    + intros U HU. by rewrite HU in Hby.
  - intros Hn. destruct (Hdone Hn) as (_ & [] & Hrun). exact Hrun.
Qed.

Lemma C9_actor_attribution_witness :
  (∀ c, ∃ new,
     entries c (run widget mark_assigned overwrite (UpdateMany all_widgets)
                  acting_user).2 = entries c acting_user ++ new ∧
     (ASYNC_STORAGE acting_user !! "currentUserId" = None →
        Forall (λ e, modifiedBy e = None) new) ∧
     (∀ U, ASYNC_STORAGE acting_user !! "currentUserId" = Some U →
        Forall (λ e, modifiedBy e = Some U) new)) ∧
  (never_rejects acting_user →
     (run widget mark_assigned overwrite (UpdateMany all_widgets) acting_user).1 = Ok tt).
Proof.
  apply (C9_actor_attribution widget mark_assigned overwrite
           (UpdateMany all_widgets) acting_user).
  by apply registry_ok_empty.
Defined.

(** ** The registry across pathway runs *)

Lemma after_registry options markModified applyUpdate ps : ∀ w,
  registry_ok w →
  registry_ok (after options markModified applyUpdate ps w) ∧
  ∀ c m, models w !! c = Some m →
         models (after options markModified applyUpdate ps w) !! c = Some m.
Proof.
  induction ps as [|p ps IH]; intros w Hok; [done|].
  destruct (audits_run options markModified applyUpdate p w Hok) as (Hok1 & Hm1 & _).
  destruct (IH _ Hok1) as [Hok2 Hm2].
  split; [exact Hok2|]. intros c m Hc. apply Hm2, Hm1, Hc.
Qed.

Lemma getModel_cached c m w :
  models w !! c = Some m → HistoryModelSingleton.getModel c w = (Ok m, w).
Proof. intros H. unfold HistoryModelSingleton.getModel. by rewrite H. Qed.

(** C6. Resolving the history model of a connection twice gives the same
    model object, and the second call compiles nothing: it leaves the
    world as it is, and so does every later call, whatever pathways ran
    in between.  Resolving for two distinct connections gives two
    distinct model objects. *)
Theorem C6_registry_idempotent options markModified applyUpdate
    (c c1 c2 : Connection) (ps : list Pathway) (w : World) :
  registry_ok w →
  (∃ m w1,
     HistoryModelSingleton.getModel c w = (Ok m, w1) ∧
     HistoryModelSingleton.getModel c w1 = (Ok m, w1) ∧
     (compiled w1 ≤ S (compiled w))%nat ∧
     HistoryModelSingleton.getModel c (after options markModified applyUpdate ps w1) =
       (Ok m, after options markModified applyUpdate ps w1)) ∧
  (c1 ≠ c2 →
   ∃ m1 m2 w1 w2,
     HistoryModelSingleton.getModel c1 w = (Ok m1, w1) ∧
     HistoryModelSingleton.getModel c2 w1 = (Ok m2, w2) ∧
     model_ident m1 ≠ model_ident m2 ∧
     HistoryModelSingleton.getModel c1 w2 = (Ok m1, w2)).
Proof.
  intros Hok. split.
  - destruct (getModel_wrote c w Hok) as (m & w1 & Hrun & _ & Hm & Hw).
    exists m, w1. split; [exact Hrun|]. split; [by apply getModel_cached|].
    split.
    + unfold HistoryModelSingleton.getModel in Hrun.
      destruct (models w !! c); injection Hrun as _ <-; simpl; lia.
    + apply getModel_cached.
      by apply (after_registry options markModified applyUpdate ps w1), Hm; apply Hw.
  - intros Hne.
    destruct (getModel_wrote c1 w Hok) as (m1 & w1 & Hrun1 & _ & Hm1 & Hw1).
    destruct (getModel_wrote c2 w1 (wrote_registry _ _ _ _ _ Hw1))
      as (m2 & w2 & Hrun2 & _ & Hm2 & Hw2).
    pose proof (wrote_models _ _ _ _ _ Hw2 c1 m1 Hm1) as Hm1'.
    exists m1, m2, w1, w2. split; [exact Hrun1|]. split; [exact Hrun2|].
    split; [|by apply getModel_cached].
    intros Hid. apply Hne.
    by apply (proj2 (wrote_registry _ _ _ _ _ Hw2) c1 c2 m1 m2).
Qed.

Lemma C6_registry_idempotent_witness :
  (∃ m w1,
     HistoryModelSingleton.getModel 0 initial = (Ok m, w1) ∧
     HistoryModelSingleton.getModel 0 w1 = (Ok m, w1) ∧
     (compiled w1 ≤ S (compiled initial))%nat ∧
     HistoryModelSingleton.getModel 0
       (after widget mark_assigned overwrite [Save new_widget; DeleteOne new_widget] w1) =
       (Ok m, after widget mark_assigned overwrite [Save new_widget; DeleteOne new_widget] w1)) ∧
  (0 ≠ 1 →
   ∃ m1 m2 w1 w2,
     HistoryModelSingleton.getModel 0 initial = (Ok m1, w1) ∧
     HistoryModelSingleton.getModel 1 w1 = (Ok m2, w2) ∧
     model_ident m1 ≠ model_ident m2 ∧
     HistoryModelSingleton.getModel 0 w2 = (Ok m1, w2)).
Proof.
  apply (C6_registry_idempotent widget mark_assigned overwrite 0 0 1
           [Save new_widget; DeleteOne new_widget] initial).
  apply registry_ok_initial.
Defined.

(** ** The running example of the specification *)

(** Creating widget [{name: "a"}], renaming it to ["b"] and deleting it
    leaves the three entries of its history, in this order. *)
Example widget_history :
  let w := after widget mark_assigned overwrite
             [Save new_widget; Save renamed_widget; DeleteOne renamed_widget] initial in
  (λ e, (action e, changes e, snapshot e)) <$> entries 0 w =
    [ (create, {[ "_id" := VObjectId 1; "name" := VStr "a" ]},
       Some {[ "_id" := VObjectId 1; "name" := VStr "a" ]});
      (update, {[ "name" := VStr "b" ]},
       Some {[ "_id" := VObjectId 1; "name" := VStr "b" ]});
      (hardDelete, ∅,
       Some {[ "_id" := VObjectId 1; "name" := VStr "b" ]}) ] ∧
  stored 0 w = [] ∧
  compiled w = 1.
Proof. vm_compute. done. Qed.

(** A dotted path reads inside a nested object. *)
Example get_nested_path :
  get {| _id := 1; isNew := false;
         fields := {[ "address" := VObject {[ "city" := VStr "Lome" ]} ]};
         modifiedPaths := ["address"; "address.city"]; db := 0 |}
      "address.city" = VStr "Lome".
Proof. reflexivity. Qed.

(** ** Invariants kept by every run *)

Lemma preserves_ret P {A} (a : A) : preserves P (mret a : M A).
Proof. by intros w. Qed.

Lemma preserves_bind P {A B} (m : M A) (k : A → M B) :
  preserves P m → (∀ a, preserves P (k a)) → preserves P (m ≫= k).
Proof.
  intros Hm Hk w Hw. specialize (Hm w Hw).
  unfold mbind, M_bind, bind. destruct (m w) as [[a|e] w1]; simpl in *.
  - by apply Hk.
  - done.
Qed.

Lemma preserves_for_of P {A} (xs : list A) (body : A → M unit) :
  (∀ x, preserves P (body x)) → preserves P (for_of xs body).
Proof.
  intros Hbody. induction xs as [|x xs IH]; cbn [for_of].
  - apply preserves_ret.
  - apply preserves_bind; [apply Hbody|]. intros _. apply IH.
Qed.

Lemma preserves_read P {A} (m : M A) :
  (∀ w, (m w).2 = w) → preserves P m.
Proof. intros Hm w Hw. by rewrite Hm. Qed.

Section preserved_by_hooks.

Variable options : Options.
Variable P : World → Prop.

Hypothesis P_getModel : ∀ c, preserves P (HistoryModelSingleton.getModel c).
Hypothesis P_save : ∀ m e, preserves P (HistoryModel_save m e).

Lemma preserves_createHistoryEntry doc a ch sn :
  preserves P (createHistoryEntry options doc a ch sn).
Proof.
  unfold createHistoryEntry. apply preserves_bind; [by apply preserves_read|].
  intros u. apply preserves_bind; [apply P_getModel|]. intros m. apply P_save.
Qed.

Lemma preserves_hooks (d : Doc) (q : Query) :
  preserves P (pre_save options d) ∧
  preserves P (pre_deleteOne options d) ∧
  preserves P (pre_findOneAndDelete options q) ∧
  preserves P (pre_findOneAndUpdate options q) ∧
  preserves P (pre_deleteMany options q) ∧
  preserves P (pre_updateMany options q).
Proof.
  repeat split.
  - apply preserves_createHistoryEntry.
  - apply preserves_createHistoryEntry.
  - unfold pre_findOneAndDelete. apply preserves_bind; [by apply preserves_read|].
    intros [doc|]; [apply preserves_createHistoryEntry|apply preserves_ret].
  - unfold pre_findOneAndUpdate. apply preserves_bind; [by apply preserves_read|].
    intros [doc|]; [apply preserves_createHistoryEntry|apply preserves_ret].
  - unfold pre_deleteMany. apply preserves_bind; [by apply preserves_read|].
    intros docs. apply preserves_for_of. intros doc. apply preserves_createHistoryEntry.
  - unfold pre_updateMany. apply preserves_bind; [by apply preserves_read|].
    intros docs. apply preserves_for_of. intros doc. apply preserves_createHistoryEntry.
Qed.

Hypothesis P_write : ∀ c f, preserves P (write_collection c f).

Lemma preserves_save_pathway d : preserves P (save options d).
Proof.
  unfold save, with_pre. apply preserves_bind; [apply preserves_hooks, all_widgets|].
  intros _. unfold persist. apply preserves_bind; [apply P_write|].
  intros _. apply preserves_ret.
Qed.

Lemma preserves_run markModified applyUpdate p :
  preserves P (run options markModified applyUpdate p).
Proof.
  destruct p; simpl.
  - apply preserves_bind; [apply preserves_save_pathway|]. intros _.
    apply preserves_ret.
  - apply preserves_bind; [|intros _; apply preserves_ret].
    unfold methods_softDelete. apply preserves_bind; [apply preserves_save_pathway|].
    intros this. apply preserves_bind; [apply preserves_createHistoryEntry|].
    intros _. apply preserves_ret.
  - apply preserves_bind; [|intros _; apply preserves_ret].
    unfold methods_restore. apply preserves_bind; [apply preserves_save_pathway|].
    intros this. apply preserves_bind; [apply preserves_createHistoryEntry|].
    intros _. apply preserves_ret.
  - unfold deleteOne, with_pre.
    apply preserves_bind; [apply (preserves_hooks d all_widgets)|].
    intros _. apply P_write.
  - unfold findOneAndDelete, with_pre.
    apply preserves_bind; [apply (preserves_hooks new_widget q)|].
    intros _. apply P_write.
  - unfold findOneAndUpdate, with_pre.
    apply preserves_bind; [apply (preserves_hooks new_widget q)|].
    intros _. apply P_write.
  - unfold deleteMany, with_pre.
    apply preserves_bind; [apply (preserves_hooks new_widget q)|].
    intros _. apply P_write.
  - unfold updateMany, with_pre.
    apply preserves_bind; [apply (preserves_hooks new_widget q)|].
    intros _. apply P_write.
Qed.

Lemma preserves_after markModified applyUpdate ps : ∀ w,
  P w → P (after options markModified applyUpdate ps w).
Proof.
  induction ps as [|p ps IH]; intros w Hw; [done|].
  apply IH. by apply preserves_run.
Qed.

End preserved_by_hooks.

Lemma getModel_frame c w :
  let w' := (HistoryModelSingleton.getModel c w).2 in
  history w' = history w ∧ collections w' = collections w ∧
  ASYNC_STORAGE w' = ASYNC_STORAGE w ∧ faults w' = faults w ∧
  is_Some (models w' !! c) ∧
  ∀ c', c' ≠ c → models w' !! c' = models w !! c'.
Proof.
  unfold HistoryModelSingleton.getModel.
  destruct (models w !! c) as [m|] eqn:Hc; simpl.
  - by rewrite Hc.
  - repeat split; try done.
    + rewrite lookup_insert_eq. by eexists.
    + intros c' Hne. by rewrite lookup_insert_ne.
Qed.

Lemma HistoryModel_save_frame m e w :
  let w' := (HistoryModel_save m e w).2 in
  models w' = models w ∧ compiled w' = compiled w ∧
  collections w' = collections w ∧ ASYNC_STORAGE w' = ASYNC_STORAGE w.
Proof. unfold HistoryModel_save. by destruct (faults w) as [|[err|] rest]. Qed.

(** X1. A hook never writes to the audited collection and no pathway
    ever changes the ambient context, whatever the store answers. *)
Theorem hooks_leave_collections options markModified applyUpdate
    (d : Doc) (q : Query) (ps : list Pathway) (w : World) :
  collections (pre_save options d w).2 = collections w ∧
  collections (pre_deleteOne options d w).2 = collections w ∧
  collections (pre_findOneAndDelete options q w).2 = collections w ∧
  collections (pre_findOneAndUpdate options q w).2 = collections w ∧
  collections (pre_deleteMany options q w).2 = collections w ∧
  collections (pre_updateMany options q w).2 = collections w ∧
  ASYNC_STORAGE (after options markModified applyUpdate ps w) = ASYNC_STORAGE w.
Proof.
  assert (Hcoll : ∀ cs,
    preserves (λ w', collections w' = cs) (pre_save options d) ∧
    preserves (λ w', collections w' = cs) (pre_deleteOne options d) ∧
    preserves (λ w', collections w' = cs) (pre_findOneAndDelete options q) ∧
    preserves (λ w', collections w' = cs) (pre_findOneAndUpdate options q) ∧
    preserves (λ w', collections w' = cs) (pre_deleteMany options q) ∧
    preserves (λ w', collections w' = cs) (pre_updateMany options q)).
  { intros cs. apply preserves_hooks.
    - intros c w' <-. apply getModel_frame.
    - intros m e w' <-. apply HistoryModel_save_frame. }
  destruct (Hcoll (collections w)) as (H1 & H2 & H3 & H4 & H5 & H6).
  repeat split; [by apply H1|by apply H2|by apply H3|by apply H4|by apply H5|by apply H6|].
  apply (preserves_after options (λ w', ASYNC_STORAGE w' = ASYNC_STORAGE w)); [| | |done].
  - intros c w' <-. apply getModel_frame.
  - intros m e w' <-. apply HistoryModel_save_frame.
  - by intros c f w' <-.
Qed.

Lemma getModel_one_model_each c :
  preserves one_model_each (HistoryModelSingleton.getModel c).
Proof.
  intros w Hw. unfold one_model_each, HistoryModelSingleton.getModel in *.
  destruct (models w !! c) as [m|] eqn:Hc; simpl; [done|].
  rewrite map_size_insert_None by done. by rewrite Hw.
Qed.

(** X2. From a registry that holds one model for each call of
    [connection.model], every sequence of pathway runs leads to such a
    registry: the plugin never compiles a second model for a connection
    it has a model for, whatever the store answers in between. *)
Theorem registry_one_model_each options markModified applyUpdate
    (ps : list Pathway) (w : World) :
  one_model_each w →
  one_model_each (after options markModified applyUpdate ps w).
Proof.
  apply preserves_after.
  - apply getModel_one_model_each.
  - intros m e w' Hw'. unfold one_model_each in *.
    destruct (HistoryModel_save_frame m e w') as (-> & -> & _). done.
  - by intros c f w' Hw'.
Qed.

Lemma registry_one_model_each_witness :
  one_model_each
    (after widget mark_assigned overwrite
       [Save new_widget; UpdateMany all_widgets;
        Save {| _id := 9; isNew := true; fields := ∅; modifiedPaths := []; db := 3 |};
        DeleteOne renamed_widget]
       third_write_fails).
Proof.
  apply (registry_one_model_each widget mark_assigned overwrite).
  reflexivity.
Defined.

(** ** What every appended entry looks like *)

Lemma appends_unchanged Q {A} (m : M A) :
  (∀ w, history (m w).2 = history w) → appends Q m.
Proof.
  intros Hm w c. exists []. split; [|done].
  unfold entries. by rewrite Hm, app_nil_r.
Qed.

Lemma appends_ret Q {A} (a : A) : appends Q (mret a : M A).
Proof. by apply appends_unchanged. Qed.

Lemma appends_bind_result Q {A B} (R : A → Prop) (m : M A) (k : A → M B) :
  appends Q m →
  (∀ w a, (m w).1 = Ok a → R a) →
  (∀ a, R a → appends Q (k a)) →
  appends Q (m ≫= k).
Proof.
  intros Hm HR Hk w c. destruct (Hm w c) as (n1 & E1 & F1).
  specialize (HR w). unfold mbind, M_bind, bind.
  destruct (m w) as [[a|e] w1]; simpl in *.
  - destruct (Hk a (HR a eq_refl) w1 c) as (n2 & E2 & F2).
    exists (n1 ++ n2). split; [by rewrite E2, E1, app_assoc|].
    by apply Forall_app.
  - by exists n1.
Qed.

Lemma appends_bind Q {A B} (m : M A) (k : A → M B) :
  appends Q m → (∀ a, appends Q (k a)) → appends Q (m ≫= k).
Proof.
  intros Hm Hk. apply (appends_bind_result Q (λ _, True)); auto.
Qed.

Lemma appends_for_of Q {A} (xs : list A) (body : A → M unit) :
  (∀ x, appends Q (body x)) → appends Q (for_of xs body).
Proof.
  intros Hbody. induction xs as [|x xs IH]; cbn [for_of].
  - apply appends_ret.
  - apply appends_bind; [apply Hbody|]. intros _. apply IH.
Qed.

Lemma appends_HistoryModel_save (Q : IHistoryDocument → Prop) m e :
  Q e → appends Q (HistoryModel_save m e).
Proof.
  intros He w c. unfold HistoryModel_save.
  assert (Hadd : ∃ new,
    default [] (<[model_db m := entries (model_db m) w ++ [e]]> (history w) !! c) =
      entries c w ++ new ∧ Forall Q new).
  { destruct (decide (c = model_db m)) as [->|Hc].
    - exists [e]. rewrite lookup_insert_eq. split; [done|by constructor].
    - exists []. rewrite lookup_insert_ne by done. by rewrite app_nil_r. }
  destruct (faults w) as [|[err|] rest]; simpl; try exact Hadd.
  exists []. by rewrite app_nil_r.
Qed.

Lemma appends_createHistoryEntry options (Q : IHistoryDocument → Prop) doc a ch sn :
  (∀ u, Q {| originalId := _id doc; changes := ch; snapshot := sn;
             modelName := options_modelName options; action := a;
             modifiedBy := u |}) →
  appends Q (createHistoryEntry options doc a ch sn).
Proof.
  intros HQ. unfold createHistoryEntry.
  apply appends_bind; [by apply appends_unchanged|]. intros u.
  apply appends_bind.
  - apply appends_unchanged. intros w. apply getModel_frame.
  - intros m. apply appends_HistoryModel_save, HQ.
Qed.

Lemma save_result options d w a :
  (save options d w).1 = Ok a → a = persisted d.
Proof.
  unfold save, with_pre, mbind, M_bind, bind.
  destruct (pre_save options d w) as [[[]|e] w1]; simpl; [|done].
  by intros [= <-].
Qed.

Lemma toObject_id d : toObject d !! "_id" = Some (VObjectId (_id d)).
Proof. unfold toObject. by rewrite lookup_insert_eq. Qed.

Section entry_shapes.

Variable options : Options.

Local Abbreviation Q := (λ e, identified options e ∧ shaped e).

Lemma appends_pre_save d : appends Q (pre_save options d).
Proof.
  unfold pre_save. apply appends_createHistoryEntry. intros u.
  split.
  - split; [done|]. exists (toObject d). simpl.
    rewrite toObject_id. split; [done|]. split; [by eexists|done].
  - unfold shaped. simpl. by destruct (isNew d).
Qed.

Lemma appends_hardDelete doc :
  appends Q (createHistoryEntry options doc hardDelete ∅ (Some (toObject doc))).
Proof.
  apply appends_createHistoryEntry. intros u. split; [|done].
  split; [done|]. exists (toObject doc). simpl.
  rewrite toObject_id. split; [done|]. split; [by eexists|done].
Qed.

Lemma appends_update doc updates :
  appends Q (createHistoryEntry options doc update updates
               (Some (updates ∪ toObject doc))).
Proof.
  apply appends_createHistoryEntry. intros u. split; [|done].
  split; [done|]. eexists. simpl. split; [done|]. split; [|done].
  apply lookup_union_is_Some. right. rewrite toObject_id. by eexists.
Qed.

Lemma appends_save d : appends Q (save options d).
Proof.
  unfold save, with_pre. apply appends_bind; [apply appends_pre_save|].
  intros _. by apply appends_unchanged.
Qed.

Lemma appends_run markModified applyUpdate p :
  appends Q (run options markModified applyUpdate p).
Proof.
  destruct p; simpl.
  - apply appends_bind; [apply appends_save|]. intros _. apply appends_ret.
  - apply appends_bind; [|intros _; apply appends_ret].
    unfold methods_softDelete.
    apply (appends_bind_result _
             (λ a, a = persisted (assign markModified "deletedAt" (VDate now) d)));
      [apply appends_save|intros w a; apply save_result|].
    intros this ->. apply appends_bind; [|intros _; apply appends_ret].
    apply appends_createHistoryEntry. intros u. split.
    + split; [done|]. eexists. simpl. rewrite toObject_id.
      split; [done|]. split; [by eexists|done].
    + unfold shaped. simpl. exists now. by rewrite get_deletedAt.
  - apply appends_bind; [|intros _; apply appends_ret].
    unfold methods_restore.
    apply appends_bind; [apply appends_save|].
    intros this. apply appends_bind; [|intros _; apply appends_ret].
    apply appends_createHistoryEntry. intros u. split; [|done].
    split; [done|]. eexists. simpl. rewrite toObject_id.
    split; [done|]. split; [by eexists|done].
  - unfold deleteOne, with_pre.
    apply appends_bind; [apply appends_hardDelete|].
    intros _. by apply appends_unchanged.
  - unfold findOneAndDelete, with_pre. apply appends_bind.
    + unfold pre_findOneAndDelete. apply appends_bind; [by apply appends_unchanged|].
      intros [doc|]; [apply appends_hardDelete|apply appends_ret].
    + intros _. by apply appends_unchanged.
  - unfold findOneAndUpdate, with_pre. apply appends_bind.
    + unfold pre_findOneAndUpdate. apply appends_bind; [by apply appends_unchanged|].
      intros [doc|]; [apply appends_update|apply appends_ret].
    + intros _. by apply appends_unchanged.
  - unfold deleteMany, with_pre. apply appends_bind.
    + unfold pre_deleteMany. apply appends_bind; [by apply appends_unchanged|].
      intros docs. apply appends_for_of. intros doc. apply appends_hardDelete.
    + intros _. by apply appends_unchanged.
  - unfold updateMany, with_pre. apply appends_bind.
    + unfold pre_updateMany. apply appends_bind; [by apply appends_unchanged|].
      intros docs. apply appends_for_of. intros doc. apply appends_update.
    + intros _. by apply appends_unchanged.
Qed.

Lemma appends_after markModified applyUpdate ps : ∀ w c,
  ∃ new, entries c (after options markModified applyUpdate ps w) = entries c w ++ new ∧
         Forall Q new.
Proof.
  induction ps as [|p ps IH]; intros w c.
  - exists []. by rewrite app_nil_r.
  - destruct (appends_run markModified applyUpdate p w c) as (n1 & E1 & F1).
    destruct (IH (run options markModified applyUpdate p w).2 c) as (n2 & E2 & F2).
    exists (n1 ++ n2). split; [|by apply Forall_app].
    cbn [after foldl]. unfold after in E2. by rewrite E2, E1, app_assoc.
Qed.

End entry_shapes.

(** X3. The history is append-only: through any sequence of pathway
    runs, completed or failed, every history keeps the entries it had,
    in their order, as a prefix. *)
Theorem history_append_only options markModified applyUpdate
    (ps : list Pathway) (w : World) (c : Connection) :
  entries c w `prefix_of` entries c (after options markModified applyUpdate ps w).
Proof.
  destruct (appends_after options markModified applyUpdate ps w c) as (new & E & _).
  by exists new.
Qed.

(** X4. Every entry a sequence of pathway runs appends names the model
    the plugin was installed with and carries a snapshot; the snapshot
    holds an [_id], which is the entry's [originalId] unless the entry is
    an [update]. *)
Theorem entries_identified options markModified applyUpdate
    (ps : list Pathway) (w : World) (c : Connection) :
  ∃ new,
    entries c (after options markModified applyUpdate ps w) = entries c w ++ new ∧
    Forall (identified options) new.
Proof.
  destruct (appends_after options markModified applyUpdate ps w c) as (new & E & F).
  exists new. split; [done|]. eapply Forall_impl; [exact F|]. by intros e [? _].
Qed.

(** X5. The [changes] of every entry a sequence of pathway runs appends
    follow from its [action]: a [create] entry's are its snapshot, a
    [hardDelete] entry's are empty, a [softDelete] entry's are the
    tombstone field alone with a date, a [restore] entry's are the
    tombstone field alone with [null]. *)
Theorem entries_shaped options markModified applyUpdate
    (ps : list Pathway) (w : World) (c : Connection) :
  ∃ new,
    entries c (after options markModified applyUpdate ps w) = entries c w ++ new ∧
    Forall shaped new.
Proof.
  destruct (appends_after options markModified applyUpdate ps w c) as (new & E & F).
  exists new. split; [done|]. eapply Forall_impl; [exact F|]. by intros e [_ ?].
Qed.

(** ** Which error a pathway throws *)










(** ** Edge cases of the hooks *)

Lemma filter_nil_none {A} (p : A → bool) (l : list A) :
  List.filter p l = [] → Forall (λ x, p x = false) l.
Proof.
  induction l as [|x l IH]; simpl; [constructor|].
  destruct (p x) eqn:Hx; [done|]. intros H. constructor; auto.
Qed.

Lemma filter_negb_all {A} (p : A → bool) (l : list A) :
  Forall (λ x, p x = false) l → List.filter (λ x, negb (p x)) l = l.
Proof.
  induction 1 as [|x l Hx _ IH]; simpl; [done|]. by rewrite Hx, IH.
Qed.

Lemma fmap_unmatched {A} (p : A → bool) (g : A → A) (l : list A) :
  Forall (λ x, p x = false) l → (λ x, if p x then g x else x) <$> l = l.
Proof.
  induction 1 as [|x l Hx _ IH]; [done|]. rewrite fmap_cons. by rewrite Hx, IH.
Qed.

(** X7. When the criteria of a bulk pathway match no entity, its hook
    asks the store for nothing, leaves the world as it is and completes,
    even with a store that would reject a write; the bulk mutation then
    runs and leaves the collection as it was. *)
Theorem bulk_no_match options applyUpdate (q : Query) (w : World) :
  matched q w = [] →
  pre_deleteMany options q w = (Ok tt, w) ∧
  pre_updateMany options q w = (Ok tt, w) ∧
  (deleteMany options q w).1 = Ok tt ∧
  (updateMany options applyUpdate q w).1 = Ok tt ∧
  history (deleteMany options q w).2 = history w ∧
  history (updateMany options applyUpdate q w).2 = history w ∧
  stored (model q) (deleteMany options q w).2 = stored (model q) w ∧
  stored (model q) (updateMany options applyUpdate q w).2 = stored (model q) w.
Proof.
  intros Hnone.
  assert (Hd : pre_deleteMany options q w = (Ok tt, w)).
  { unfold pre_deleteMany. rewrite (bind_ok _ _ _ _ _ (find_run _ _ w)).
    fold (matched q w). by rewrite Hnone. }
  assert (Hu : pre_updateMany options q w = (Ok tt, w)).
  { unfold pre_updateMany. rewrite (bind_ok _ _ _ _ _ (find_run _ _ w)).
    fold (matched q w). by rewrite Hnone. }
  assert (Hall : Forall (λ s, matches (getQuery q) s = false) (stored (model q) w)).
  { apply filter_nil_none. unfold matched in Hnone.
    by apply fmap_nil_inv in Hnone. }
  unfold deleteMany, updateMany.
  rewrite (with_pre_ok _ _ _ _ Hd), (with_pre_ok _ _ _ _ Hu).
  repeat split; try done.
  - simpl. rewrite stored_write. by apply filter_negb_all.
  - simpl. rewrite stored_write. by apply fmap_unmatched.
Qed.

Lemma bulk_no_match_witness :
  pre_deleteMany widget no_widget first_write_fails = (Ok tt, first_write_fails) ∧
  pre_updateMany widget no_widget first_write_fails = (Ok tt, first_write_fails) ∧
  (deleteMany widget no_widget first_write_fails).1 = Ok tt ∧
  (updateMany widget overwrite no_widget first_write_fails).1 = Ok tt ∧
  history (deleteMany widget no_widget first_write_fails).2 = history first_write_fails ∧
  history (updateMany widget overwrite no_widget first_write_fails).2 =
    history first_write_fails ∧
  stored 0 (deleteMany widget no_widget first_write_fails).2 = stored 0 first_write_fails ∧
  stored 0 (updateMany widget overwrite no_widget first_write_fails).2 =
    stored 0 first_write_fails.
Proof.
  apply (bulk_no_match widget overwrite no_widget first_write_fails).
  reflexivity.
Defined.

(** X8. [createHistoryEntry] resolves the history model before it
    writes: whether the store accepts the write or rejects it, the
    connection of the document has a cached model afterwards, compiled
    by this call when there was none, and the model cached for any other
    connection is the one it was. *)
Theorem rejected_write_still_registers options doc a ch sn (w : World) :
  let w' := (createHistoryEntry options doc a ch sn w).2 in
  is_Some (models w' !! db doc) ∧
  (models w !! db doc = None → compiled w' = S (compiled w)) ∧
  (is_Some (models w !! db doc) → compiled w' = compiled w) ∧
  ∀ c, c ≠ db doc → models w' !! c = models w !! c.
Proof.
  unfold createHistoryEntry, mbind, M_bind, bind, ASYNC_STORAGE_get. simpl.
  pose proof (getModel_frame (db doc) w) as (_ & _ & _ & _ & Hsome & Hother).
  assert (Hcount :
    (models w !! db doc = None →
       compiled (HistoryModelSingleton.getModel (db doc) w).2 = S (compiled w)) ∧
    (is_Some (models w !! db doc) →
       compiled (HistoryModelSingleton.getModel (db doc) w).2 = compiled w)).
  { unfold HistoryModelSingleton.getModel.
    destruct (models w !! db doc) as [m|]; simpl; split; try done. }
  destruct (HistoryModelSingleton.getModel (db doc) w) as [[m|e] w1]; simpl in *.
  - pose proof (HistoryModel_save_frame m
      {| originalId := _id doc; changes := ch; snapshot := sn;
         modelName := options_modelName options; action := a;
         modifiedBy := ASYNC_STORAGE w !! "currentUserId" |} w1) as (Hm & Hc & _).
    simpl in Hm, Hc. rewrite Hm, Hc. by destruct Hcount.
  - by destruct Hcount.
Qed.

(** ** Soft delete and restore, continued *)

Lemma writes_accepted_head n w : writes_accepted (S n) w → accepts w.
Proof.
  unfold writes_accepted, accepts. destruct (faults w) as [|o fs]; [by left|].
  simpl. intros [-> _]%Forall_cons. by right.
Qed.

Lemma writes_accepted_drop n k w w' :
  faults w' = drop n (faults w) → writes_accepted (n + k) w → writes_accepted k w'.
Proof.
  unfold writes_accepted. intros ->. rewrite <- take_take_drop.
  by intros [_ ?]%Forall_app.
Qed.

Section tombstone_state.

Variable options : Options.
Variable a : Action.
Variable mk : Doc → gmap string value.

Local Abbreviation save_then_record d :=
  (this ← save options d;
   createHistoryEntry options this a (mk this) (Some (toObject this));;
   mret this).

Lemma save_then_record_state d w :
  registry_ok w → writes_accepted 2 w →
  ∃ w3, save_then_record d w = (Ok (persisted d), w3) ∧
        entries (db d) w3 =
          entries (db d) w ++
            [save_entry options w d;
             audit_entry options w (persisted d) a (mk (persisted d))
               (Some (toObject (persisted d)))] ∧
        faults w3 = drop 2 (faults w) ∧
        registry_ok w3 ∧
        ASYNC_STORAGE w3 = ASYNC_STORAGE w ∧
        stored (db d) w3 =
          (if isNew d then stored (db d) w ++ [(_id d, fields d)]
           else replace_entity (_id d) (fields d) <$> stored (db d) w).
Proof.
  intros Hok Hacc.
  destruct (pre_save_accepted options d w Hok (writes_accepted_head 1 w Hacc))
    as (w1 & Hpre & Hw1).
  set (w2 := (persist d w1).2).
  assert (Hsave : save options d w = (Ok (persisted d), w2)).
  { unfold save. rewrite (with_pre_ok _ _ _ _ Hpre). apply persist_run. }
  destruct (createHistoryEntry_accepted options (persisted d) a (mk (persisted d))
              (Some (toObject (persisted d))) w2) as (w3 & Hrun & Hw3).
  { apply registry_ok_set_collections, Hw1. }
  { apply (writes_accepted_head 0).
    apply (writes_accepted_drop 1 1 w); [apply Hw1|done]. }
  change (db (persisted d)) with (db d) in Hw3.
  exists w3. split; [|split; [|split; [|split; [|split]]]].
  - rewrite (bind_ok _ _ _ _ _ Hsave). by rewrite (bind_ok _ _ _ _ _ Hrun).
  - rewrite (wrote_here _ _ _ _ _ Hw3).
    change (entries (db d) w2) with (entries (db d) w1).
    rewrite (wrote_here _ _ _ _ _ Hw1), <- app_assoc. simpl.
    do 3 f_equal. apply audit_entry_context.
    change (ASYNC_STORAGE w2) with (ASYNC_STORAGE w1). apply Hw1.
  - rewrite (wrote_faults _ _ _ _ _ Hw3).
    change (faults w2) with (faults w1).
    rewrite (wrote_faults _ _ _ _ _ Hw1). by rewrite drop_drop.
  - apply Hw3.
  - rewrite (wrote_context _ _ _ _ _ Hw3).
    change (ASYNC_STORAGE w2) with (ASYNC_STORAGE w1). apply Hw1.
  - rewrite (stored_same _ _ _ (wrote_collections _ _ _ _ _ Hw3)).
    unfold w2. rewrite persist_run. simpl. rewrite stored_write.
    by rewrite (stored_same _ _ _ (wrote_collections _ _ _ _ _ Hw1)).
Qed.

End tombstone_state.

(** X9. Soft-deleting a document that was never saved inserts it with
    its tombstone: the history gets a [create] entry, whose [changes]
    already hold the tombstone date, followed by the [softDelete] entry,
    and the stored entity carries the tombstone. *)
Theorem soft_delete_of_new_document options markModified (now : Z)
    (d : Doc) (w : World) :
  isNew d = true → registry_ok w → writes_accepted 2 w →
  ∃ e1 e2 d' w',
    methods_softDelete options markModified now d w = (Ok d', w') ∧
    entries (db d) w' = entries (db d) w ++ [e1; e2] ∧
    action e1 = create ∧
    changes e1 = <["deletedAt" := VDate now]> (toObject d) ∧
    action e2 = softDelete ∧
    changes e2 = {[ "deletedAt" := VDate now ]} ∧
    isNew d' = false ∧
    stored (db d) w' =
      stored (db d) w ++ [(_id d, <["deletedAt" := VDate now]> (fields d))].
Proof.
  intros Hnew Hok Hacc.
  destruct (save_then_record_state options softDelete
              (λ this, {[ "deletedAt" := get this "deletedAt" ]})
              (assign markModified "deletedAt" (VDate now) d) w Hok Hacc)
    as (w3 & Hrun & Hhere & _ & _ & _ & Hst).
  eexists _, _, _, w3. split; [exact Hrun|]. split; [exact Hhere|].
  split; [unfold save_entry; simpl; by rewrite Hnew|].
  split.
  { unfold save_entry. simpl. rewrite Hnew.
    unfold toObject. simpl. by apply insert_insert_ne. }
  split; [reflexivity|].
  split; [simpl; by rewrite get_deletedAt|].
  split; [reflexivity|].
  simpl in Hst. by rewrite Hnew in Hst.
Qed.

Lemma soft_delete_of_new_document_witness :
  ∃ e1 e2 d' w',
    methods_softDelete widget mark_assigned 1000 new_widget initial = (Ok d', w') ∧
    entries 0 w' = entries 0 initial ++ [e1; e2] ∧
    action e1 = create ∧
    changes e1 = <["deletedAt" := VDate 1000]> (toObject new_widget) ∧
    action e2 = softDelete ∧
    changes e2 = {[ "deletedAt" := VDate 1000 ]} ∧
    isNew d' = false ∧
    stored 0 w' =
      stored 0 initial ++ [(1%N, <["deletedAt" := VDate 1000]> (fields new_widget))].
Proof.
  apply (soft_delete_of_new_document widget mark_assigned 1000 new_widget initial).
  - reflexivity.
  - apply registry_ok_initial.
  - constructor.
Defined.

Lemma replace_entity_twice i f1 f2 (l : list (N * gmap string value)) :
  replace_entity i f2 <$> (replace_entity i f1 <$> l) = replace_entity i f2 <$> l.
Proof.
  rewrite <- list_fmap_compose. apply list_fmap_ext. intros _ [j f] _.
  unfold replace_entity, compose. simpl.
  destruct (N.eqb j i) eqn:Hj; simpl; [by rewrite N.eqb_refl|by rewrite Hj].
Qed.

(** X10. A soft delete followed by a restore of the same document, with
    every write accepted, appends four entries: the entry of the first
    save, [softDelete], [update], [restore].  The document and the
    stored entity end with the tombstone field present and [null], and
    every other field as the document had it. *)
Theorem soft_delete_then_restore options markModified (now : Z)
    (d : Doc) (w : World) :
  registry_ok w → writes_accepted 4 w →
  ∃ e1 e2 e3 e4 d1 w1 d2 w2,
    methods_softDelete options markModified now d w = (Ok d1, w1) ∧
    methods_restore options markModified d1 w1 = (Ok d2, w2) ∧
    entries (db d) w2 = entries (db d) w ++ [e1; e2; e3; e4] ∧
    action e1 = (if isNew d then create else update) ∧
    action e2 = softDelete ∧
    action e3 = update ∧
    action e4 = restore ∧
    snapshot e4 = Some (toObject d2) ∧
    toObject d2 = <["deletedAt" := VNull]> (toObject d) ∧
    stored (db d) w2 =
      replace_entity (_id d) (<["deletedAt" := VNull]> (fields d))
        <$> (if isNew d then stored (db d) w ++ [(_id d, fields d)]
             else stored (db d) w).
Proof.
  intros Hok Hacc.
  set (d1 := assign markModified "deletedAt" (VDate now) d).
  destruct (save_then_record_state options softDelete
              (λ this, {[ "deletedAt" := get this "deletedAt" ]}) d1 w Hok)
    as (w1 & Hrun1 & Hhere1 & Hf1 & Hok1 & Hctx1 & Hst1).
  { apply (writes_accepted_drop 0 2 w); [done|].
    unfold writes_accepted in *. rewrite <- (take_take_drop _ 2 2) in Hacc.
    apply Forall_app in Hacc as [H2 _]. unfold writes_accepted.
    rewrite <- (take_take_drop _ 0 2). simpl. exact H2. }
  set (d2 := assign markModified "deletedAt" VNull (persisted d1)).
  destruct (save_then_record_state options restore
              (λ _, {[ "deletedAt" := VNull ]}) d2 w1 Hok1)
    as (w2 & Hrun2 & Hhere2 & _ & _ & _ & Hst2).
  { by apply (writes_accepted_drop 2 2 w). }
  change (db d2) with (db d) in Hhere2, Hst2.
  change (db d1) with (db d) in Hhere1, Hst1.
  eexists _, _, _, _, (persisted d1), w1, (persisted d2), w2.
  split; [exact Hrun1|]. split; [exact Hrun2|].
  split; [rewrite Hhere2, Hhere1, <- app_assoc; reflexivity|].
  split; [unfold save_entry; simpl; by destruct (isNew d)|].
  split; [reflexivity|]. split; [reflexivity|]. split; [reflexivity|].
  split; [reflexivity|]. split.
  { unfold toObject. simpl. rewrite insert_insert_eq. by apply insert_insert_ne. }
  simpl in Hst2, Hst1. rewrite Hst2, Hst1.
  rewrite insert_insert_eq.
  destruct (isNew d).
  - rewrite !fmap_app. f_equal. simpl. unfold replace_entity. simpl.
    by rewrite N.eqb_refl.
  - apply replace_entity_twice.
Qed.

Lemma soft_delete_then_restore_witness :
  ∃ e1 e2 e3 e4 d1 w1 d2 w2,
    methods_softDelete widget mark_assigned 1000 loaded_widget two_widgets = (Ok d1, w1) ∧
    methods_restore widget mark_assigned d1 w1 = (Ok d2, w2) ∧
    entries 0 w2 = entries 0 two_widgets ++ [e1; e2; e3; e4] ∧
    action e1 = (if isNew loaded_widget then create else update) ∧
    action e2 = softDelete ∧
    action e3 = update ∧
    action e4 = restore ∧
    snapshot e4 = Some (toObject d2) ∧
    toObject d2 = <["deletedAt" := VNull]> (toObject loaded_widget) ∧
    stored 0 w2 =
      replace_entity 1 (<["deletedAt" := VNull]> (fields loaded_widget))
        <$> (if isNew loaded_widget
             then stored 0 two_widgets ++ [(1%N, fields loaded_widget)]
             else stored 0 two_widgets).
Proof.
  apply (soft_delete_then_restore widget mark_assigned 1000 loaded_widget two_widgets).
  - by apply registry_ok_empty.
  - constructor.
Defined.

Lemma foldl_paths_dom (f : string → value) (l : list string) (acc : gmap string value) :
  dom (foldl (λ acc path, <[path := f path]> acc) acc l) =
    list_to_set l ∪ dom acc.
Proof.
  revert acc. induction l as [|q l IH]; intros acc; cbn [foldl].
  - simpl. by rewrite (left_id_L ∅ (∪)).
  - rewrite IH, dom_insert_L. simpl.
    rewrite (assoc_L (∪)). f_equal. apply (comm_L (∪)).
Qed.

(** X11. The [changes] of the [update] entry of a save have one key for
    each distinct modified path; a save of a loaded document with no
    modified path still writes its [update] entry, and the [changes] of
    an [update] entry of a save are empty in that case only. *)
Theorem update_changes_domain options (d : Doc) (w : World) :
  isNew d = false → registry_ok w → accepts w →
  ∃ e w1,
    pre_save options d w = (Ok tt, w1) ∧
    wrote (db d) [e] 1 w w1 ∧
    action e = update ∧
    dom (changes e) = list_to_set (modifiedPaths d) ∧
    (changes e = ∅ ↔ modifiedPaths d = []).
Proof.
  intros Hnew Hok Hacc.
  destruct (pre_save_accepted options d w Hok Hacc) as (w1 & Hpre & Hw).
  exists (save_entry options w d), w1.
  split; [exact Hpre|]. split; [exact Hw|].
  unfold save_entry. simpl. rewrite Hnew.
  assert (Hdom :
    dom (foldl (λ (acc : gmap string value) path, <[path := get d path]> acc)
           ∅ (modifiedPaths d)) = list_to_set (modifiedPaths d)).
  { rewrite (foldl_paths_dom (get d)), dom_empty_L. apply (right_id_L ∅ (∪)). }
  split; [done|]. split; [exact Hdom|]. split.
  - intros Hempty. rewrite Hempty, dom_empty_L in Hdom.
    destruct (modifiedPaths d) as [|p ps]; [done|].
    assert (Hp : p ∈ (∅ : gset string)).
    { rewrite Hdom. simpl. apply elem_of_union_l. by apply elem_of_singleton. }
    by apply not_elem_of_empty in Hp.
  - by intros ->.
Qed.

Lemma update_changes_domain_witness :
  ∃ e w1,
    pre_save widget loaded_widget two_widgets = (Ok tt, w1) ∧
    wrote 0 [e] 1 two_widgets w1 ∧
    action e = update ∧
    dom (changes e) = list_to_set (modifiedPaths loaded_widget) ∧
    (changes e = ∅ ↔ modifiedPaths loaded_widget = []).
Proof.
  apply (update_changes_domain widget loaded_widget two_widgets).
  - reflexivity.
  - by apply registry_ok_empty.
  - by left.
Defined.

(** ** A bulk pathway retried after a failure *)

Lemma matched_same q w w' :
  collections w' = collections w → matched q w' = matched q w.
Proof. intros H. unfold matched. by rewrite (stored_same _ _ _ H). Qed.

Lemma faults_after_rejection {A} k (e : A) (rest : list (option A)) :
  drop (S k) (replicate k None ++ Some e :: rest) = rest.
Proof.
  rewrite cons_middle, app_assoc.
  apply drop_app_length'. rewrite length_app, length_replicate. simpl. lia.
Qed.

(** X12. Nothing is taken back when a bulk pathway fails, and nothing is
    remembered: when write k+1 is rejected and the same bulk pathway is
    run again with every write accepted, the entries of the first k
    matches are in the history twice, before the entries of all the
    matches, and only then is the bulk mutation applied. *)
Theorem bulk_retry_duplicates options applyUpdate (q : Query) (k : nat)
    (e : Error) (rest : list (option Error)) (w : World) :
  registry_ok w →
  (k < length (matched q w))%nat →
  faults w = replicate k None ++ Some e :: rest →
  Forall (λ o, o = None) (take (length (matched q w)) rest) →
  (∃ w1 w2,
     deleteMany options q w = (Throw e, w1) ∧
     deleteMany options q w1 = (Ok tt, w2) ∧
     entries (model q) w2 =
       entries (model q) w
         ++ (delete_entry options w <$> take k (matched q w))
         ++ (delete_entry options w <$> matched q w) ∧
     stored (model q) w1 = stored (model q) w ∧
     stored (model q) w2 =
       List.filter (λ s, negb (matches (getQuery q) s)) (stored (model q) w)) ∧
  (∃ w1 w2,
     updateMany options applyUpdate q w = (Throw e, w1) ∧
     updateMany options applyUpdate q w1 = (Ok tt, w2) ∧
     entries (model q) w2 =
       entries (model q) w
         ++ (update_entry options w (getUpdate q) <$> take k (matched q w))
         ++ (update_entry options w (getUpdate q) <$> matched q w) ∧
     stored (model q) w1 = stored (model q) w ∧
     stored (model q) w2 =
       (λ s, if matches (getQuery q) s then patch applyUpdate (getUpdate q) s else s)
         <$> stored (model q) w).
Proof.
  intros Hok Hk Hf Hrest. split.
  - destruct (pre_deleteMany_rejected options q k e rest w Hok Hk Hf) as (w1 & Hd1 & Hw1).
    pose proof (matched_same q w w1 (wrote_collections _ _ _ _ _ Hw1)) as Hm.
    destruct (pre_deleteMany_accepted options q w1) as (w2 & Hd2 & Hw2).
    { apply Hw1. }
    { unfold writes_accepted.
      rewrite (wrote_faults _ _ _ _ _ Hw1), Hf, faults_after_rejection. by rewrite Hm. }
    rewrite Hm in Hw2.
    eexists w1, _. split; [unfold deleteMany; by apply with_pre_throw|].
    split; [unfold deleteMany; rewrite (with_pre_ok _ _ _ _ Hd2); reflexivity|].
    split; [|split].
    + change (entries (model q) ?x) with (entries (model q) w2) at 1.
      rewrite (wrote_here _ _ _ _ _ Hw2), (wrote_here _ _ _ _ _ Hw1), <- app_assoc.
      do 2 f_equal. apply list_fmap_ext. intros _ doc _.
      apply audit_entry_context, Hw1.
    + apply stored_same, Hw1.
    + rewrite stored_write.
      rewrite (stored_same _ _ _ (wrote_collections _ _ _ _ _ Hw2)).
      by rewrite (stored_same _ _ _ (wrote_collections _ _ _ _ _ Hw1)).
  - destruct (pre_updateMany_rejected options q k e rest w Hok Hk Hf) as (w1 & Hu1 & Hw1).
    pose proof (matched_same q w w1 (wrote_collections _ _ _ _ _ Hw1)) as Hm.
    destruct (pre_updateMany_accepted options q w1) as (w2 & Hu2 & Hw2).
    { apply Hw1. }
    { unfold writes_accepted.
      rewrite (wrote_faults _ _ _ _ _ Hw1), Hf, faults_after_rejection. by rewrite Hm. }
    rewrite Hm in Hw2.
    eexists w1, _. split; [unfold updateMany; by apply with_pre_throw|].
    split; [unfold updateMany; rewrite (with_pre_ok _ _ _ _ Hu2); reflexivity|].
    split; [|split].
    + change (entries (model q) ?x) with (entries (model q) w2) at 1.
      rewrite (wrote_here _ _ _ _ _ Hw2), (wrote_here _ _ _ _ _ Hw1), <- app_assoc.
      do 2 f_equal. apply list_fmap_ext. intros _ doc _.
      apply audit_entry_context, Hw1.
    + apply stored_same, Hw1.
    + rewrite stored_write.
      rewrite (stored_same _ _ _ (wrote_collections _ _ _ _ _ Hw2)).
      by rewrite (stored_same _ _ _ (wrote_collections _ _ _ _ _ Hw1)).
Qed.

Lemma bulk_retry_duplicates_witness :
  (∃ w1 w2,
     deleteMany widget all_widgets second_write_fails =
       (Throw (WriteError "store unavailable"), w1) ∧
     deleteMany widget all_widgets w1 = (Ok tt, w2) ∧
     entries 0 w2 =
       entries 0 second_write_fails
         ++ (delete_entry widget second_write_fails
               <$> take 1 (matched all_widgets second_write_fails))
         ++ (delete_entry widget second_write_fails
               <$> matched all_widgets second_write_fails) ∧
     stored 0 w1 = stored 0 second_write_fails ∧
     stored 0 w2 = []) ∧
  (∃ w1 w2,
     updateMany widget overwrite all_widgets second_write_fails =
       (Throw (WriteError "store unavailable"), w1) ∧
     updateMany widget overwrite all_widgets w1 = (Ok tt, w2) ∧
     entries 0 w2 =
       entries 0 second_write_fails
         ++ (update_entry widget second_write_fails (getUpdate all_widgets)
               <$> take 1 (matched all_widgets second_write_fails))
         ++ (update_entry widget second_write_fails (getUpdate all_widgets)
               <$> matched all_widgets second_write_fails) ∧
     stored 0 w1 = stored 0 second_write_fails ∧
     stored 0 w2 =
       patch overwrite (getUpdate all_widgets) <$> stored 0 second_write_fails).
Proof.
  apply (bulk_retry_duplicates widget overwrite all_widgets 1
           (WriteError "store unavailable") [] second_write_fails).
  - by apply registry_ok_empty.
  - vm_compute. lia.
  - reflexivity.
  - constructor.
Defined.

Lemma rejected_write_still_registers_witness :
  (createHistoryEntry widget loaded_widget hardDelete ∅ None first_write_fails).1 =
    Throw (WriteError "store unavailable") ∧
  is_Some (models (createHistoryEntry widget loaded_widget hardDelete ∅ None
                     first_write_fails).2 !! 0) ∧
  compiled (createHistoryEntry widget loaded_widget hardDelete ∅ None
              first_write_fails).2 = 1.
Proof.
  destruct (rejected_write_still_registers widget loaded_widget hardDelete ∅ None
              first_write_fails) as (Hsome & Hnew & _).
  split; [reflexivity|]. split; [exact Hsome|]. by apply Hnew.
Defined.
